(** * Token lifecycle and account resolution of the chatbot backend

    A shallow embedding of [src/index.js]: the JWT helpers
    ([createAccessToken], [createRefreshToken], [verifyAccessToken]) and the
    route handlers [/signin], [/api/auth/google] and [/refresh_token].

    The handlers are written as programs over the effects the source
    performs ([Date.now()], [pool.query], [googleClient.verifyIdToken]), each
    [await] being one node of the program.  The same program is then run
    either to completion against a world (one request at a time) or
    interleaved with other requests at its [await] points. *)

From Stdlib Require Import ZArith String Ascii List Lia Bool DecimalString.
From stdpp Require Import base option list strings.

Open Scope string_scope.
Open Scope list_scope.
Open Scope Z_scope.

(** ** Data model *)

(** A row of the [users] table. *)
Record User := mkUser {
  user_id : Z;
  user_name : string;
  user_email : string;
  password_hash : option string;
  google_id : option string
}.

(** The decoded payload of a signed token.  [createAccessToken] signs
    [{ id, email, name }], [createRefreshToken] signs [{ id }]; [jwt.sign]
    adds [iat] and [exp]. *)
Record Payload := mkPayload {
  p_id : Z;
  p_email : option string;
  p_name : option string;
  iat : Z;
  exp : option Z
}.

(** The object handed to [jwt.sign]. *)
Record Claims := mkClaims {
  c_id : Z;
  c_email : option string;
  c_name : option string
}.

Definition claims_of (p : Payload) : Claims :=
  {| c_id := p_id p; c_email := p_email p; c_name := p_name p |}.

(** A cookie value is a string; it either parses as a signed token with a
    payload and a signature, or it does not. *)
Inductive JwtString :=
| Malformed (raw : string)
| Jws (payload : Payload) (signature : string).

(** The claims of a verified Google ID token ([ticket.getPayload()]). *)
Record GooglePayload := mkGooglePayload {
  sub : string;
  g_email : string;
  g_name : string;
  picture : option string
}.

Inductive Exn :=
| TypeError (msg : string)
| JsonWebTokenError (msg : string)
| TokenExpiredError
| DatabaseError (msg : string)
| BcryptError (msg : string)
| GoogleError (msg : string).

(** [process.env] *)
Record Env := mkEnv {
  JWT_SECRET : string;
  REFRESH_TOKEN_SECRET : string;
  GOOGLE_CLIENT_ID : string;
  isProd : bool
}.

(** ** HTTP requests and responses *)

Record Cookies := mkCookies {
  accessToken : option JwtString;
  refreshToken : option JwtString
}.

Record Body := mkBody {
  token : option string;
  email : option string;
  password : option string
}.

(** [req.cookies] is always an object; [req.body] is undefined when the
    request carried no body that was parsed. *)
Record Request := mkRequest {
  cookies : Cookies;
  body : option Body
}.

Record CookieOptions := mkCookieOptions {
  httpOnly : bool;
  secure : bool;
  sameSite : string;
  maxAge : Z
}.

Record SetCookie := mkSetCookie {
  cookie_name : string;
  cookie_value : JwtString;
  cookie_options : CookieOptions
}.

Record UserSummary := mkUserSummary {
  s_id : Z;
  s_name : string;
  s_email : string
}.

Record Response := mkResponse {
  status : Z;
  message : string;
  user : option UserSummary;
  set_cookies : list SetCookie
}.

(** [res.status(code).json({ message })] *)
Definition json (code : Z) (msg : string) : Response :=
  {| status := code; message := msg; user := None; set_cookies := [] |}.

Definition summary (u : User) : UserSummary :=
  {| s_id := user_id u; s_name := user_name u; s_email := user_email u |}.

(** What the access guard does with a request: call [next()] with
    [req.user] set, or answer. *)
Inductive Guard :=
| Next (req_user : Payload)
| Responded (r : Response).

(** ** The [users] table *)

Inductive Query :=
| SelectByEmail (e : option string)
| SelectByGoogleId (g : string)
| SelectById (i : Z)
| InsertGoogle (n e g : string)
| UpdateGoogleId (g : string) (i : Z).

(** Modelled from the spec: the schema of the [users] table is not part of
    the source.  The data model gives [email] as unique and the external
    identity id as unique when present; whether the table enforces either
    is a parameter. *)
Record Schema := mkSchema {
  unique_email : bool;
  unique_google_id : bool
}.

(** The repository, the clock, and for each coming query whether the
    repository is unreachable when it is issued. *)
Record World := mkWorld {
  users : list User;
  next_id : Z;
  now : Z;
  outages : list bool
}.

Definition has_email (e : string) (u : User) : Prop := user_email u = e.
Definition has_google_id (g : string) (u : User) : Prop := google_id u = Some g.
Definition has_id (i : Z) (u : User) : Prop := user_id u = i.

#[global] Instance has_email_dec e u : Decision (has_email e u).
Proof. unfold has_email. apply _. Defined.
#[global] Instance has_google_id_dec g u : Decision (has_google_id g u).
Proof. unfold has_google_id. apply _. Defined.
#[global] Instance has_id_dec i u : Decision (has_id i u).
Proof. unfold has_id. apply _. Defined.

Definition set_google_id (g : string) (u : User) : User :=
  {| user_id := user_id u; user_name := user_name u; user_email := user_email u;
     password_hash := password_hash u; google_id := Some g |}.

(** The row of [INSERT INTO users (name, email, google_id)]: the id comes
    from the table's sequence, the password hash is left null. *)
Definition new_google_user (i : Z) (n e g : string) : User :=
  {| user_id := i; user_name := n; user_email := e;
     password_hash := None; google_id := Some g |}.

(** [SET google_id=$1 WHERE id=$2], row by row. *)
Definition link_google_id (g : string) (i : Z) (u : User) : User :=
  if decide (has_id i u) then set_google_id g u else u.

Definition set_users (l : list User) (w : World) : World :=
  {| users := l; next_id := next_id w; now := now w; outages := outages w |}.

Definition bump_id (w : World) : World :=
  {| users := users w; next_id := next_id w + 1; now := now w; outages := outages w |}.

Definition set_outages (o : list bool) (w : World) : World :=
  {| users := users w; next_id := next_id w; now := now w; outages := o |}.

Definition unique_violation : Exn :=
  DatabaseError "duplicate key value violates unique constraint".

(** One statement, executed atomically by a reachable repository. *)
Definition exec_statement (sch : Schema) (q : Query) (w : World)
  : (Exn + list User) * World :=
  match q with
  | SelectByEmail None => (inr [], w)
  | SelectByEmail (Some e) => (inr (filter (has_email e) (users w)), w)
  | SelectByGoogleId g => (inr (filter (has_google_id g) (users w)), w)
  | SelectById i => (inr (filter (has_id i) (users w)), w)
  | InsertGoogle n e g =>
      let row := new_google_user (next_id w) n e g in
      if unique_email sch && bool_decide (Exists (has_email e) (users w))
      then (inl unique_violation, bump_id w)
      else if unique_google_id sch && bool_decide (Exists (has_google_id g) (users w))
      then (inl unique_violation, bump_id w)
      else (inr [row], bump_id (set_users (users w ++ [row]) w))
  | UpdateGoogleId g i =>
      if unique_google_id sch
         && bool_decide (Exists (has_id i) (users w))
         && bool_decide (Exists (fun u => has_google_id g u /\ ~ has_id i u) (users w))
      then (inl unique_violation, w)
      else (inr [], set_users (link_google_id g i <$> users w) w)
  end.

(** [pool.query]: the statement fails without effect when the repository is
    unreachable. *)
Definition exec_query (sch : Schema) (q : Query) (w : World)
  : (Exn + list User) * World :=
  match outages w with
  | true :: o => (inl (DatabaseError "connection refused"), set_outages o w)
  | false :: o => exec_statement sch q (set_outages o w)
  | [] => exec_statement sch q w
  end.

(** ** Programs *)

(** A handler body: a value, a thrown exception, or an effect followed by
    the rest of the body.  The continuation of an [await] receives either
    the rejection or the value of the promise. *)
Inductive Prog (A : Type) : Type :=
| Ret (a : A)
| Throw (e : Exn)
| DateNow (k : Z -> Prog A)
| PoolQuery (q : Query) (k : Exn + list User -> Prog A)
| VerifyIdToken (idToken : option string) (audience : string)
                (k : Exn + option GooglePayload -> Prog A).

Arguments Ret {A} a.
Arguments Throw {A} e.
Arguments DateNow {A} k.
Arguments PoolQuery {A} q k.
Arguments VerifyIdToken {A} idToken audience k.

Fixpoint bind {A B : Type} (p : Prog A) (f : A -> Prog B) : Prog B :=
  match p with
  | Ret a => f a
  | Throw e => Throw e
  | DateNow k => DateNow (fun t => bind (k t) f)
  | PoolQuery q k => PoolQuery q (fun r => bind (k r) f)
  | VerifyIdToken t a k => VerifyIdToken t a (fun r => bind (k r) f)
  end.

(** [try { p } catch (err) { h err }] *)
Fixpoint try_catch {A : Type} (p : Prog A) (h : Exn -> Prog A) : Prog A :=
  match p with
  | Ret a => Ret a
  | Throw e => h e
  | DateNow k => DateNow (fun t => try_catch (k t) h)
  | PoolQuery q k => PoolQuery q (fun r => try_catch (k r) h)
  | VerifyIdToken t a k => VerifyIdToken t a (fun r => try_catch (k r) h)
  end.

#[global] Instance prog_ret : MRet Prog := fun A a => Ret a.
#[global] Instance prog_bind : MBind Prog := fun A B f p => bind p f.

(** [await e]: a rejected promise throws. *)
Definition await {A : Type} (r : Exn + A) : Prog A :=
  match r with
  | inl e => Throw e
  | inr a => Ret a
  end.

Definition query (q : Query) : Prog (list User) := PoolQuery q await.

(** ** Running one request to completion *)

Section Run.
Variable sch : Schema.
(** [googleClient.verifyIdToken]: the identity provider's verdict on an
    assertion for an audience. *)
Variable idp : option string -> string -> Exn + option GooglePayload.

Fixpoint run {A : Type} (p : Prog A) (w : World) : (Exn + A) * World :=
  match p with
  | Ret a => (inr a, w)
  | Throw e => (inl e, w)
  | DateNow k => run (k (now w)) w
  | PoolQuery q k => let '(r, w') := exec_query sch q w in run (k r) w'
  | VerifyIdToken t a k => run (k (idp t a)) w
  end.
End Run.

(** One step of a request: it runs, reading the clock as it goes, up to
    its next [await], whose promise is settled; a finished request does
    not move. *)
Fixpoint step_proc {A : Type} (sch : Schema)
  (idp : option string -> string -> Exn + option GooglePayload)
  (p : Prog A) (w : World) : Prog A * World :=
  match p with
  | Ret _ | Throw _ => (p, w)
  | DateNow k => step_proc sch idp (k (now w)) w
  | PoolQuery q k => let '(r, w') := exec_query sch q w in (k r, w')
  | VerifyIdToken t a k => (k (idp t a), w)
  end.

Definition finished {A : Type} (p : Prog A) : bool :=
  match p with
  | Ret _ | Throw _ => true
  | _ => false
  end.

(** [n] steps of one request on its own. *)
Fixpoint steps {A : Type} (sch : Schema)
  (idp : option string -> string -> Exn + option GooglePayload)
  (n : nat) (p : Prog A) (w : World) : Prog A * World :=
  match n with
  | O => (p, w)
  | S n => let '(p', w') := step_proc sch idp p w in steps sch idp n p' w'
  end.

(** What a finished request has come to. *)
Definition outcome {A : Type} (p : Prog A) : option (Exn + A) :=
  match p with
  | Ret a => Some (inr a)
  | Throw e => Some (inl e)
  | _ => None
  end.

(** ** Concurrent requests

    Request handlers run on one event loop: between two [await]s a handler
    runs without interruption, and at an [await] any other suspended
    handler may be resumed.  A schedule names, step by step, the request
    that is resumed. *)
Record System (A : Type) := mkSystem {
  world : World;
  procs : list (Prog A)
}.

Arguments mkSystem {A} world procs.
Arguments world {A} s.
Arguments procs {A} s.

Definition sys_step {A : Type} (sch : Schema)
  (idp : option string -> string -> Exn + option GooglePayload)
  (i : nat) (s : System A) : System A :=
  match procs s !! i with
  | Some p =>
      let '(p', w') := step_proc sch idp p (world s) in
      {| world := w'; procs := <[i := p']> (procs s) |}
  | None => s
  end.

Definition run_schedule {A : Type} (sch : Schema)
  (idp : option string -> string -> Exn + option GooglePayload)
  (sched : list nat) (s : System A) : System A :=
  fold_left (fun s i => sys_step sch idp i s) sched s.

Definition all_finished {A : Type} (s : System A) : bool :=
  forallb finished (procs s).

(** ** The [ms] and [jsonwebtoken] libraries, as the source uses them *)

Definition digit_of (c : ascii) : option Z :=
  let n := Z.of_nat (nat_of_ascii c) in
  if (48 <=? n) && (n <=? 57) then Some (n - 48) else None.

Fixpoint ms_digits (s : string) (acc : Z) : Z * string :=
  match s with
  | String c r =>
      match digit_of c with
      | Some d => ms_digits r (acc * 10 + d)
      | None => (acc, s)
      end
  | EmptyString => (acc, s)
  end.

Definition ms_unit (u : string) : option Z :=
  if String.eqb u "ms" || String.eqb u "" then Some 1
  else if String.eqb u "s" then Some 1000
  else if String.eqb u "m" then Some (60 * 1000)
  else if String.eqb u "h" then Some (60 * 60 * 1000)
  else if String.eqb u "d" then Some (24 * 60 * 60 * 1000)
  else None.

(** [ms(str)] on an integral span with a short unit, in milliseconds. *)
Definition ms (s : string) : option Z :=
  match s with
  | EmptyString => None
  | String c _ =>
      match digit_of c with
      | None => None
      | Some _ => let '(n, u) := ms_digits s 0 in (Z.mul n) <$> ms_unit u
      end
  end.

(** [timespan(expiresIn, iat)]: the absolute expiry, in seconds. *)
Definition timespan (expiresIn : string) (timestamp : Z) : option Z :=
  (fun m => timestamp + m / 1000) <$> ms expiresIn.

(** [Math.floor(Date.now() / 1000)] *)
Definition clock (t : Z) : Z := t / 1000.

Section Handlers.

(** The keyed hash behind the HS256 signature of a token. *)
Variable hmac : string -> Payload -> string.
(** The one-way comparison behind [bcrypt.compare]. *)
Variable bcrypt_check : string -> string -> bool.
Variable env : Env.

(** [jwt.sign(payload, secret, { expiresIn })] *)
Definition jwt_sign (c : Claims) (secret : string) (expiresIn : string)
  : Prog JwtString :=
  DateNow (fun t =>
    let timestamp := clock t in
    match timespan expiresIn timestamp with
    | None => Throw (JsonWebTokenError "expiresIn should be a number of seconds or string representing a timespan")
    | Some e =>
        let p := {| p_id := c_id c; p_email := c_email c; p_name := c_name c;
                    iat := timestamp; exp := Some e |} in
        Ret (Jws p (hmac secret p))
    end).

(** [jwt.verify(token, secret)] *)
Definition jwt_verify (t : option JwtString) (secret : string) : Prog Payload :=
  DateNow (fun d =>
    let clockTimestamp := clock d in
    match t with
    | None => Throw (JsonWebTokenError "jwt must be provided")
    | Some (Malformed _) => Throw (JsonWebTokenError "jwt malformed")
    | Some (Jws p sig) =>
        if negb (String.eqb sig (hmac secret p))
        then Throw (JsonWebTokenError "invalid signature")
        else match exp p with
             | Some e =>
                 if clockTimestamp >=? e then Throw TokenExpiredError else Ret p
             | None => Ret p
             end
    end).

(** ** JWT helper functions *)

Definition undefined_property (prop : string) : Exn :=
  TypeError
    (String.append "Cannot read properties of undefined (reading '"
       (String.append prop "')")).

(** [const { prop, ... } = req.body] with [req.body] undefined, as the
    routes do before their [try]. *)
Definition destructure_undefined (prop : string) : Exn :=
  TypeError
    (String.append "Cannot destructure property '"
       (String.append prop "' of 'req.body' as it is undefined.")).

Definition createAccessToken (u : option User) : Prog JwtString :=
  match u with
  | None => Throw (undefined_property "id")
  | Some u =>
      jwt_sign {| c_id := user_id u; c_email := Some (user_email u);
                  c_name := Some (user_name u) |}
               (JWT_SECRET env) "15m"
  end.

Definition createRefreshToken (u : option User) : Prog JwtString :=
  match u with
  | None => Throw (undefined_property "id")
  | Some u =>
      jwt_sign {| c_id := user_id u; c_email := None; c_name := None |}
               (REFRESH_TOKEN_SECRET env) "7d"
  end.

(** [!token] *)
Definition falsy (t : option JwtString) : bool :=
  match t with
  | None => true
  | Some (Malformed "") => true
  | Some _ => false
  end.

Definition verifyAccessToken (req : Request) : Prog Guard :=
  let token := accessToken (cookies req) in
  if falsy token then Ret (Responded (json 401 "Unauthorized"))
  else
    try_catch
      (req_user ← jwt_verify token (JWT_SECRET env);
       Ret (Next req_user))
      (fun _ => Ret (Responded (json 401 "Invalid or expired token"))).

(** ** Cookies of a session *)

Definition session_cookie (age : Z) : CookieOptions :=
  {| httpOnly := true; secure := isProd env;
     sameSite := if isProd env then "Strict" else "Lax"; maxAge := age |}.

Definition access_cookie (t : JwtString) : SetCookie :=
  {| cookie_name := "accessToken"; cookie_value := t;
     cookie_options := session_cookie (15 * 60 * 1000) |}.

Definition refresh_cookie (t : JwtString) : SetCookie :=
  {| cookie_name := "refreshToken"; cookie_value := t;
     cookie_options := session_cookie (7 * 24 * 60 * 60 * 1000) |}.

(** Reading [user.id], [user.name], [user.email] of a value that may be
    [undefined]. *)
Definition deref (u : option User) : Prog User :=
  match u with
  | None => Throw (undefined_property "id")
  | Some u => Ret u
  end.

(** ** Signin *)

(** [bcrypt.compare(data, hash)] rejects when either argument is missing. *)
Definition bcrypt_compare (data hash : option string) : Exn + bool :=
  match data, hash with
  | Some d, Some h => inr (bcrypt_check d h)
  | _, _ => inl (BcryptError "data and hash arguments required")
  end.

Definition signin (req : Request) : Prog Response :=
  match body req with
  | None => Throw (destructure_undefined "email")
  | Some b =>
  let email := email b in
  let password := password b in
  try_catch
    (userResult ← query (SelectByEmail email);
     match userResult with
     | [] => Ret (json 400 "Invalid email or password")
     | u :: _ =>
         isMatch ← await (bcrypt_compare password (password_hash u));
         if negb isMatch then Ret (json 400 "Invalid email or password")
         else
           accessToken ← createAccessToken (Some u);
           refreshToken ← createRefreshToken (Some u);
           Ret {| status := 200; message := "Login successful";
                  user := Some (summary u);
                  set_cookies := [access_cookie accessToken;
                                  refresh_cookie refreshToken] |}
     end)
    (fun _ => Ret (json 500 "Server error"))
  end.

(** ** Google sign-in *)

(** Step 2 of the handler: find the account of a verified identity, link
    it, or create it. *)
Definition resolve_external (payload : GooglePayload) : Prog (option User) :=
  let googleId := sub payload in
  let email := g_email payload in
  let name := g_name payload in
  userResult ← query (SelectByGoogleId googleId);
  match userResult with
  | [] =>
      emailResult ← query (SelectByEmail (Some email));
      match emailResult with
      | u :: _ =>
          _ ← query (UpdateGoogleId googleId (user_id u));
          Ret (Some u)
      | [] =>
          insertResult ← query (InsertGoogle name email googleId);
          Ret (head insertResult)
      end
  | u :: _ => Ret (Some u)
  end.

Definition google_auth (req : Request) : Prog Response :=
  match body req with
  | None => Throw (destructure_undefined "token")
  | Some b =>
  let token := token b in
  try_catch
    (ticket ← VerifyIdToken token (GOOGLE_CLIENT_ID env) await;
     match ticket with
     | None => Throw (TypeError "Cannot destructure property 'sub' of 'payload' as it is undefined")
     | Some payload =>
         u ← resolve_external payload;
         accessToken ← createAccessToken u;
         refreshToken ← createRefreshToken u;
         u ← deref u;
         Ret {| status := 200; message := "Google login successful";
                user := Some (summary u);
                set_cookies := [access_cookie accessToken;
                                refresh_cookie refreshToken] |}
     end)
    (fun _ => Ret (json 401 "Google authentication failed"))
  end.

(** ** Refresh *)

Definition refresh_token (req : Request) : Prog Response :=
  let token := refreshToken (cookies req) in
  if falsy token then Ret (json 401 "No refresh token provided")
  else
    try_catch
      (decoded ← jwt_verify token (REFRESH_TOKEN_SECRET env);
       userResult ← query (SelectById (p_id decoded));
       let u := head userResult in
       newAccessToken ← createAccessToken u;
       Ret {| status := 200; message := "Access token refreshed";
              user := None;
              set_cookies := [access_cookie newAccessToken] |})
      (fun _ => Ret (json 401 "Invalid or expired refresh token")).

End Handlers.

(** ** What a minted token holds *)

(** The payload [createAccessToken] signs for account [u] at instant [t]
    (milliseconds). *)
Definition access_payload (u : User) (t : Z) : Payload :=
  {| p_id := user_id u; p_email := Some (user_email u);
     p_name := Some (user_name u);
     iat := clock t; exp := Some (clock t + 15 * 60) |}.

(** The payload [createRefreshToken] signs for account [u] at instant [t]. *)
Definition refresh_payload (u : User) (t : Z) : Payload :=
  {| p_id := user_id u; p_email := None; p_name := None;
     iat := clock t; exp := Some (clock t + 7 * 24 * 60 * 60) |}.

Definition identity_claim (u : User) : Claims :=
  {| c_id := user_id u; c_email := Some (user_email u);
     c_name := Some (user_name u) |}.

Definition with_access_token (t : JwtString) (req : Request) : Request :=
  {| cookies := {| accessToken := Some t;
                   refreshToken := refreshToken (cookies req) |};
     body := body req |}.

Definition with_refresh_token (t : JwtString) (req : Request) : Request :=
  {| cookies := {| accessToken := accessToken (cookies req);
                   refreshToken := Some t |};
     body := body req |}.

Definition without_access_token (req : Request) : Request :=
  {| cookies := {| accessToken := None;
                   refreshToken := refreshToken (cookies req) |};
     body := body req |}.


Section Minted.
Variable hmac : string -> Payload -> string.
Variable env : Env.

(** The access token [createAccessToken] returns for [u] at instant [t]. *)
Definition minted_access (u : User) (t : Z) : JwtString :=
  Jws (access_payload u t) (hmac (JWT_SECRET env) (access_payload u t)).

(** The refresh token [createRefreshToken] returns for [u] at instant [t]. *)
Definition minted_refresh (u : User) (t : Z) : JwtString :=
  Jws (refresh_payload u t) (hmac (REFRESH_TOKEN_SECRET env) (refresh_payload u t)).

End Minted.



(** ** The account resolver, in the words of its specification

    1. an account whose external identity id is the identity's: returned
       unchanged;
    2. else an account with the identity's email: its external identity id
       is set to the identity's, the record is persisted, and the updated
       record is returned;
    3. else a new account with the identity's name, email and external
       identity id and no password hash is created, persisted and
       returned. *)
Definition resolve_external_spec (identity : GooglePayload) (w : World)
  : User * World :=
  match list_find (fun account => google_id account = Some (sub identity))
                  (users w) with
  | Some (_, account) => (account, w)
  | None =>
      match list_find (fun account => user_email account = g_email identity)
                      (users w) with
      | Some (i, account) =>
          let linked :=
            {| user_id := user_id account; user_name := user_name account;
               user_email := user_email account;
               password_hash := password_hash account;
               google_id := Some (sub identity) |} in
          (linked,
           {| users := <[i := linked]> (users w); next_id := next_id w;
              now := now w; outages := outages w |})
      | None =>
          let created :=
            {| user_id := next_id w; user_name := g_name identity;
               user_email := g_email identity; password_hash := None;
               google_id := Some (sub identity) |} in
          (created,
           {| users := users w ++ [created]; next_id := next_id w + 1;
              now := now w; outages := outages w |})
      end
  end.

Definition signin_request (e p : option string) (req : Request) : Request :=
  {| cookies := cookies req;
     body := Some {| token := body req ≫= token; email := e; password := p |} |}.

Definition google_request (t : option string) (req : Request) : Request :=
  {| cookies := cookies req;
     body := Some {| token := t; email := body req ≫= email;
                     password := body req ≫= password |} |}.

(** From [w] to [w'] every query found the repository reachable: the
    outage slots used up in between are all reachable ones. *)
Definition reachable_throughout (w w' : World) : Prop :=
  exists used, outages w = used ++ outages w' /\ Forall (eq false) used.

(** ** Concurrent sign-ins: the program points of the resolver

    The resolver is suspended at each of its queries; these are the
    programs that remain at the second and third query. *)
Definition create_new (payload : GooglePayload) : Prog (option User) :=
  insertResult ← query (InsertGoogle (g_name payload) (g_email payload) (sub payload));
  Ret (head insertResult).

Definition link_found (payload : GooglePayload) (u : User) : Prog (option User) :=
  _ ← query (UpdateGoogleId (sub payload) (user_id u));
  Ret (Some u).

Definition resolve_by_email (payload : GooglePayload) : Prog (option User) :=
  emailResult ← query (SelectByEmail (Some (g_email payload)));
  match emailResult with
  | u :: _ => link_found payload u
  | [] => create_new payload
  end.

(** Requests resolving the given identities at once, none started yet. *)
Definition resolver_system (w : World) (identities : list GooglePayload)
  : System (option User) :=
  {| world := w; procs := resolve_external <$> identities |}.

(** The number of accounts with email [e]. *)
Definition accounts_with_email (e : string) (w : World) : nat :=
  length (filter (has_email e) (users w)).

(** Some account carries the external id of one of the identities. *)
Definition linked_to_any (identities : list GooglePayload) (w : World) : Prop :=
  Exists (fun u => Exists (fun i => has_google_id (sub i) u) identities) (users w).

(** Where a concurrent resolver of one of [identities] can be, in a world
    [w]: at one of its four queries, or finished; it has finished, or is
    about to link, only if an account with email [e] exists. *)
Inductive proc_ok (e : string) (identities : list GooglePayload) (w : World)
  : Prog (option User) -> Prop :=
| ok_start i :
    i ∈ identities -> proc_ok e identities w (resolve_external i)
| ok_by_email i :
    i ∈ identities -> proc_ok e identities w (resolve_by_email i)
| ok_link i u :
    i ∈ identities -> Exists (has_email e) (users w) ->
    proc_ok e identities w (link_found i u)
| ok_create i :
    i ∈ identities -> proc_ok e identities w (create_new i)
| ok_finished p :
    finished p = true -> Exists (has_email e) (users w) ->
    proc_ok e identities w p.

(** What holds of concurrent resolvers of identities with email [e] at
    every point of every schedule. *)
Record resolvers_inv (e : string) (identities : list GooglePayload)
  (s : System (option User)) : Prop := mkInv {
  inv_up : outages (world s) = [];
  inv_one : (accounts_with_email e (world s) <= 1)%nat;
  inv_linked : linked_to_any identities (world s) ->
               Exists (has_email e) (users (world s));
  inv_procs : Forall (proc_ok e identities (world s)) (procs s);
  inv_count : length (procs s) = length identities
}.

(** ** Sample data *)

(** A sample keyed hash: the tag is the key, so two keys sign alike only
    when they are equal. *)
Definition sample_hmac (k : string) (p : Payload) : string := k.

Definition sample_bcrypt (pw h : string) : bool := String.eqb (String.append "hash:" pw) h.

Definition sample_env : Env :=
  {| JWT_SECRET := "access-secret"; REFRESH_TOKEN_SECRET := "refresh-secret";
     GOOGLE_CLIENT_ID := "client-id"; isProd := false |}.

Definition sample_schema : Schema :=
  {| unique_email := true; unique_google_id := true |}.

(** Alice signed up with a password, Gina with Google. *)
Definition alice : User :=
  {| user_id := 1; user_name := "Alice"; user_email := "a@x.com";
     password_hash := Some "hash:pw1"; google_id := None |}.

Definition gina : User :=
  {| user_id := 2; user_name := "Gina"; user_email := "g@x.com";
     password_hash := None; google_id := Some "google-2" |}.

Definition sample_world : World :=
  {| users := [alice; gina]; next_id := 3; now := 1700000000000; outages := [] |}.

Definition later (ms_ : Z) (w : World) : World :=
  {| users := users w; next_id := next_id w; now := now w + ms_;
     outages := outages w |}.

Definition alice_identity : GooglePayload :=
  {| sub := "google-1"; g_email := "a@x.com"; g_name := "Alice A"; picture := None |}.

Definition newcomer_identity : GooglePayload :=
  {| sub := "google-3"; g_email := "n@x.com"; g_name := "Nora"; picture := None |}.

(** Gina's Google account, its email changed at the provider. *)
Definition gina_moved_identity : GooglePayload :=
  {| sub := "google-2"; g_email := "gina@new.example"; g_name := "Gina";
     picture := None |}.

Definition sample_idp (t : option string) (audience : string)
  : Exn + option GooglePayload :=
  match t with
  | Some "assertion-alice" => inr (Some alice_identity)
  | Some "assertion-nora" => inr (Some newcomer_identity)
  | _ => inl (GoogleError "Wrong number of segments in token")
  end.

Definition sample_request : Request :=
  {| cookies := {| accessToken := None; refreshToken := None |};
     body := Some {| token := None; email := None; password := None |} |}.

(** A request that carried no body. *)
Definition bodyless_request : Request :=
  {| cookies := {| accessToken := None; refreshToken := None |};
     body := None |}.

(** An account deleted since its refresh token was minted: id 9 is in no
    row of the sample world. *)
Definition deleted_account : User :=
  {| user_id := 9; user_name := "Zed"; user_email := "z@x.com";
     password_hash := None; google_id := None |}.

(** Alice after she changed her name. *)
Definition alice_renamed : User :=
  {| user_id := 1; user_name := "Alice Cooper"; user_email := "a@x.com";
     password_hash := Some "hash:pw1"; google_id := None |}.

Definition renamed_world : World :=
  {| users := [alice_renamed; gina]; next_id := 3; now := 1700000600000;
     outages := [] |}.

(** A schema without the uniqueness constraints. *)
Definition bare_schema : Schema :=
  {| unique_email := false; unique_google_id := false |}.

(** Two sign-ins of the newcomer at once, each suspended at its lookup by
    external id. *)
Definition two_newcomers : System (option User) :=
  resolver_system sample_world [newcomer_identity; newcomer_identity].

(** Both look up by external id, both look up by email, both insert. *)
Definition lockstep : list nat := [0; 1; 0; 1; 0; 1]%nat.

(** Two Google sign-ins of the newcomer at once. *)
Definition two_google_sign_ins : System Response :=
  {| world := sample_world;
     procs := [google_auth sample_hmac sample_env
                 (google_request (Some "assertion-nora") sample_request);
               google_auth sample_hmac sample_env
                 (google_request (Some "assertion-nora") sample_request)] |}.

(** ** HMAC-SHA256, the keyed hash of an HS256 token

    [jwt.sign] and [jwt.verify] sign the two base64url segments of the
    token with HMAC-SHA256 under the secret.  Bytes are integers below
    256, words integers below 2^32; a string stands for its bytes. *)

Definition bytes_of_string (s : string) : list Z :=
  (fun c => Z.of_nat (nat_of_ascii c)) <$> list_ascii_of_string s.

Definition string_of_bytes (l : list Z) : string :=
  string_of_list_ascii ((fun b => ascii_of_nat (Z.to_nat b)) <$> l).

Definition word (x : Z) : Z := Z.land x 4294967295.

Definition word_add (x y : Z) : Z := word (x + y).

Definition rotr (n x : Z) : Z :=
  Z.lor (Z.shiftr x n) (word (Z.shiftl x (32 - n))).

Definition sha_ch (x y z : Z) : Z :=
  Z.lxor (Z.land x y) (Z.land (Z.lxor x 4294967295) z).

Definition sha_maj (x y z : Z) : Z :=
  Z.lxor (Z.land x y) (Z.lxor (Z.land x z) (Z.land y z)).

Definition big_sigma0 (x : Z) : Z :=
  Z.lxor (rotr 2 x) (Z.lxor (rotr 13 x) (rotr 22 x)).

Definition big_sigma1 (x : Z) : Z :=
  Z.lxor (rotr 6 x) (Z.lxor (rotr 11 x) (rotr 25 x)).

Definition small_sigma0 (x : Z) : Z :=
  Z.lxor (rotr 7 x) (Z.lxor (rotr 18 x) (Z.shiftr x 3)).

Definition small_sigma1 (x : Z) : Z :=
  Z.lxor (rotr 17 x) (Z.lxor (rotr 19 x) (Z.shiftr x 10)).

(** The round constants. *)
Definition sha256_k : list Z :=
  [1116352408; 1899447441; 3049323471; 3921009573; 961987163; 1508970993;
   2453635748; 2870763221; 3624381080; 310598401; 607225278; 1426881987;
   1925078388; 2162078206; 2614888103; 3248222580; 3835390401; 4022224774;
   264347078; 604807628; 770255983; 1249150122; 1555081692; 1996064986;
   2554220882; 2821834349; 2952996808; 3210313671; 3336571891; 3584528711;
   113926993; 338241895; 666307205; 773529912; 1294757372; 1396182291;
   1695183700; 1986661051; 2177026350; 2456956037; 2730485921; 2820302411;
   3259730800; 3345764771; 3516065817; 3600352804; 4094571909; 275423344;
   430227734; 506948616; 659060556; 883997877; 958139571; 1322822218;
   1537002063; 1747873779; 1955562222; 2024104815; 2227730452; 2361852424;
   2428436474; 2756734187; 3204031479; 3329325298].

(** The initial hash value. *)
Definition sha256_h0 : list Z :=
  [1779033703; 3144134277; 1013904242; 2773480762;
   1359893119; 2600822924; 528734635; 1541459225].

(** A number as [n] bytes, most significant first. *)
Fixpoint big_endian (n : nat) (x : Z) : list Z :=
  match n with
  | O => []
  | S n => Z.land (Z.shiftr x (8 * Z.of_nat n)) 255 :: big_endian n x
  end.

Definition from_big_endian (l : list Z) : Z :=
  fold_left (fun acc b => acc * 256 + b) l 0.

(** The message, a one bit, zeros, and the length in bits on 8 bytes, up
    to a multiple of 64 bytes. *)
Definition sha256_pad (msg : list Z) : list Z :=
  let len := Z.of_nat (length msg) in
  msg ++ [128] ++ replicate (Z.to_nat ((55 - len) mod 64)) 0
      ++ big_endian 8 (8 * len).

(** [n] consecutive pieces of [size] elements. *)
Fixpoint pieces {A : Type} (size n : nat) (l : list A) : list (list A) :=
  match n with
  | O => []
  | S n => take size l :: pieces size n (drop size l)
  end.

(** The message schedule, latest word first: [n] more words. *)
Fixpoint sha256_extend (n : nat) (ws : list Z) : list Z :=
  match n with
  | O => ws
  | S n =>
      let w :=
        word_add (word_add (small_sigma1 (nth 1 ws 0)) (nth 6 ws 0))
                 (word_add (small_sigma0 (nth 14 ws 0)) (nth 15 ws 0)) in
      sha256_extend n (w :: ws)
  end.

Definition sha256_schedule (block : list Z) : list Z :=
  let ws := from_big_endian <$> pieces 4 16 block in
  rev (sha256_extend 48 (rev ws)).

Record ShaState := mkShaState {
  sa : Z; sb : Z; sc : Z; sd : Z; se : Z; sf : Z; sg : Z; sh : Z
}.

Definition sha256_round (s : ShaState) (kw : Z * Z) : ShaState :=
  let t1 := word_add (word_add (word_add (sh s) (big_sigma1 (se s)))
                               (sha_ch (se s) (sf s) (sg s)))
                     (word_add (fst kw) (snd kw)) in
  let t2 := word_add (big_sigma0 (sa s)) (sha_maj (sa s) (sb s) (sc s)) in
  {| sa := word_add t1 t2; sb := sa s; sc := sb s; sd := sc s;
     se := word_add (sd s) t1; sf := se s; sg := sf s; sh := sg s |}.

Definition sha_state (l : list Z) : ShaState :=
  {| sa := nth 0 l 0; sb := nth 1 l 0; sc := nth 2 l 0; sd := nth 3 l 0;
     se := nth 4 l 0; sf := nth 5 l 0; sg := nth 6 l 0; sh := nth 7 l 0 |}.

Definition sha_words (s : ShaState) : list Z :=
  [sa s; sb s; sc s; sd s; se s; sf s; sg s; sh s].

Definition sha256_compress (h : list Z) (block : list Z) : list Z :=
  let s := fold_left sha256_round (combine sha256_k (sha256_schedule block))
                     (sha_state h) in
  (fun p => word_add (fst p) (snd p)) <$> combine h (sha_words s).

Definition sha256 (msg : list Z) : list Z :=
  let padded := sha256_pad msg in
  let h := fold_left sha256_compress
                     (pieces 64 (length padded / 64) padded) sha256_h0 in
  h ≫= big_endian 4.

(** HMAC (RFC 2104) over SHA-256: a key longer than the 64-byte block is
    replaced by its digest, a shorter one is filled with zeros. *)
Definition hmac_key (key : list Z) : list Z :=
  let k := if (64 <? length key)%nat then sha256 key else key in
  k ++ replicate (64 - length k) 0.

Definition hmac_sha256_bytes (key msg : list Z) : list Z :=
  let k := hmac_key key in
  sha256 ((Z.lxor 92 <$> k) ++ sha256 ((Z.lxor 54 <$> k) ++ msg)).

(** *** The segments of a token *)

Definition base64url_alphabet : list ascii :=
  list_ascii_of_string
    "ABCDEFGHIJKLMNOPQRSTUVWXYZabcdefghijklmnopqrstuvwxyz0123456789-_".

Definition base64url_char (i : Z) : ascii :=
  nth (Z.to_nat i) base64url_alphabet "A"%char.

(** Three bytes give four characters; the last piece of one or two bytes
    gives two or three, without padding. *)
Definition base64url_piece (l : list Z) : list ascii :=
  match l with
  | [a; b; c] =>
      [base64url_char (Z.shiftr a 2);
       base64url_char (Z.lor (Z.shiftl (Z.land a 3) 4) (Z.shiftr b 4));
       base64url_char (Z.lor (Z.shiftl (Z.land b 15) 2) (Z.shiftr c 6));
       base64url_char (Z.land c 63)]
  | [a; b] =>
      [base64url_char (Z.shiftr a 2);
       base64url_char (Z.lor (Z.shiftl (Z.land a 3) 4) (Z.shiftr b 4));
       base64url_char (Z.shiftl (Z.land b 15) 2)]
  | [a] =>
      [base64url_char (Z.shiftr a 2);
       base64url_char (Z.shiftl (Z.land a 3) 4)]
  | _ => []
  end.

Definition base64url (l : list Z) : string :=
  string_of_list_ascii
    (pieces 3 ((length l + 2) / 3) l ≫= base64url_piece).

Definition hex_digit (i : Z) : ascii :=
  nth (Z.to_nat i) (list_ascii_of_string "0123456789abcdef") "0"%char.

Definition dquote : ascii := ascii_of_nat 34.
Definition backslash : ascii := ascii_of_nat 92.

(** [JSON.stringify] of a character of a string. *)
Definition json_char (c : ascii) : list ascii :=
  let n := Z.of_nat (nat_of_ascii c) in
  if n =? 34 then [backslash; dquote]
  else if n =? 92 then [backslash; backslash]
  else if n =? 8 then [backslash; "b"%char]
  else if n =? 12 then [backslash; "f"%char]
  else if n =? 10 then [backslash; "n"%char]
  else if n =? 13 then [backslash; "r"%char]
  else if n =? 9 then [backslash; "t"%char]
  else if n <? 32
       then [backslash; "u"%char; "0"%char; "0"%char;
             hex_digit (Z.shiftr n 4); hex_digit (Z.land n 15)]
       else [c].

Definition json_string (s : string) : list ascii :=
  [dquote] ++ (list_ascii_of_string s ≫= json_char) ++ [dquote].

Definition json_number (x : Z) : list ascii :=
  list_ascii_of_string (NilZero.string_of_int (Z.to_int x)).

(** One member of an object, [,"key":value], when the value is defined. *)
Definition json_member (key : string) (value : option (list ascii)) : list ascii :=
  match value with
  | Some v => [","%char] ++ json_string key ++ [":"%char] ++ v
  | None => []
  end.

(** [JSON.stringify] of a payload: [id], then [email] and [name] when
    present, then [iat], then [exp]. *)
Definition json_payload (p : Payload) : string :=
  string_of_list_ascii
    (["{"%char] ++ json_string "id" ++ [":"%char] ++ json_number (p_id p)
     ++ json_member "email" (json_string <$> p_email p)
     ++ json_member "name" (json_string <$> p_name p)
     ++ json_member "iat" (Some (json_number (iat p)))
     ++ json_member "exp" (json_number <$> exp p)
     ++ ["}"%char]).

(** The first segment of every token this service signs: the base64url
    of the header, which names HS256 and JWT. *)
Definition jwt_header : string := "eyJhbGciOiJIUzI1NiIsInR5cCI6IkpXVCJ9".

(** What is signed: the two segments joined by a dot. *)
Definition signing_input (p : Payload) : string :=
  String.append jwt_header
    (String.append "." (base64url (bytes_of_string (json_payload p)))).

(** The signature of an HS256 token: the base64url of the HMAC-SHA256 of
    the signing input under the secret. *)
Definition hmac_sha256 (secret : string) (p : Payload) : string :=
  base64url
    (hmac_sha256_bytes (bytes_of_string secret)
                       (bytes_of_string (signing_input p))).

(** ** Statements that only read *)

Definition is_select (q : Query) : bool :=
  match q with
  | SelectByEmail _ | SelectByGoogleId _ | SelectById _ => true
  | InsertGoogle _ _ _ | UpdateGoogleId _ _ => false
  end.

(** Two worlds with the same repository: they differ at most in the clock
    and in the outages to come. *)
Definition same_repository (w w' : World) : Prop :=
  users w' = users w /\ next_id w' = next_id w.

(** The instant of [w] lies inside the lifetime of a token with payload
    [p]; a payload without expiry never expires. *)
Definition alive (p : Payload) (w : World) : Prop :=
  match exp p with
  | Some e => now w < e * 1000
  | None => True
  end.

(** A cookie as every route sets it: closed to scripts, sent over TLS only
    in production, and kept by the browser exactly as long as the token it
    carries lives. *)
Definition cookie_matches_token (env : Env) (c : SetCookie) : Prop :=
  httpOnly (cookie_options c) = true
  /\ secure (cookie_options c) = isProd env
  /\ exists p sig, cookie_value c = Jws p sig
                   /\ exp p = Some (iat p + maxAge (cookie_options c) / 1000).

(** The 200 of the signin route for account [u] at instant [t]. *)
Definition login_successful (hmac : string -> Payload -> string) (env : Env)
  (u : User) (t : Z) : Response :=
  {| status := 200; message := "Login successful"; user := Some (summary u);
     set_cookies := [access_cookie env (minted_access hmac env u t);
                     refresh_cookie env (minted_refresh hmac env u t)] |}.

(** ** Invariants of the repository *)


(** An account without its link to an external identity. *)
Definition forget_link (u : User) : Z * string * string * option string :=
  (user_id u, user_name u, user_email u, password_hash u).

(** From [w] to [w'] no account was removed or changed other than in its
    external identity id, and at most one was added. *)
Definition accounts_kept (w w' : World) : Prop :=
  (forget_link <$> users w) `prefix_of` (forget_link <$> users w')
  /\ (length (users w') <= S (length (users w)))%nat.

(** Where a concurrent resolver can be when an account with its
    identity's email exists: it never stands at the insert. *)
Inductive linker_ok (identities : list GooglePayload)
  : Prog (option User) -> Prop :=
| linker_start i :
    i ∈ identities -> linker_ok identities (resolve_external i)
| linker_by_email i :
    i ∈ identities -> linker_ok identities (resolve_by_email i)
| linker_link i u :
    i ∈ identities -> linker_ok identities (link_found i u)
| linker_finished p :
    finished p = true -> linker_ok identities p.

(** What holds of concurrent resolvers of identities with email [e] at
    every point of every schedule, when an account with that email
    existed in the world [w0] they started in. *)
Record linkers_inv (e : string) (identities : list GooglePayload) (w0 : World)
  (s : System (option User)) : Prop := mkLinkersInv {
  li_some : Exists (has_email e) (users (world s));
  li_kept : forget_link <$> users (world s) = forget_link <$> users w0;
  li_procs : Forall (linker_ok identities) (procs s)
}.

(** ** Signup *)

(** [req.body] as the signup route reads it, when the request carried a
    body; the route reads nothing else of the request. *)
Record SignupBody := mkSignupBody {
  sb_name : option string;
  sb_email : option string;
  sb_password : option string;
  sb_confirm : option string
}.

(** The row of [INSERT INTO users (name, email, password_hash)]. *)
Definition new_local_user (i : Z) (n e h : string) : User :=
  {| user_id := i; user_name := n; user_email := e;
     password_hash := Some h; google_id := None |}.

(** Modelled from the spec: the schema of the [users] table is not part of
    the source.  The data model gives every account a name and an email,
    so a row without either is rejected. *)
Definition not_null_violation : Exn :=
  DatabaseError "null value violates not-null constraint".

(** The insert of the signup route, executed atomically by a reachable
    repository. *)
Definition insert_user_statement (sch : Schema) (n e : option string)
  (h : string) (w : World) : (Exn + list User) * World :=
  match n, e with
  | Some n, Some e =>
      let row := new_local_user (next_id w) n e h in
      if unique_email sch && bool_decide (Exists (has_email e) (users w))
      then (inl unique_violation, bump_id w)
      else (inr [row], bump_id (set_users (users w ++ [row]) w))
  | _, _ => (inl not_null_violation, bump_id w)
  end.

Definition exec_insert_user (sch : Schema) (n e : option string) (h : string)
  (w : World) : (Exn + list User) * World :=
  match outages w with
  | true :: o => (inl (DatabaseError "connection refused"), set_outages o w)
  | false :: o => insert_user_statement sch n e h (set_outages o w)
  | [] => insert_user_statement sch n e h w
  end.

(** A program that has come to a value, or that stands at the insert of
    the signup route, with what it does with the outcome of the insert. *)
Inductive Pending (A : Type) : Type :=
| Settled (a : A)
| InsertUser (n e : option string) (h : string)
             (k : Exn + list User -> Prog A).

Arguments Settled {A} a.
Arguments InsertUser {A} n e h k.

(** Running such a program to completion. *)
Definition run_pending {A : Type} (sch : Schema)
  (idp : option string -> string -> Exn + option GooglePayload)
  (p : Prog (Pending A)) (w : World) : (Exn + A) * World :=
  match run sch idp p w with
  | (inl ex, w') => (inl ex, w')
  | (inr (Settled a), w') => (inr a, w')
  | (inr (InsertUser n e h k), w') =>
      let '(r, w'') := exec_insert_user sch n e h w' in
      run sch idp (k r) w''
  end.

Section Signup.
Variable hmac : string -> Payload -> string.
(** The hash [bcrypt.hash(data, 12)] gives a password, salt included. *)
Variable hash_fn : string -> string.
Variable env : Env.

(** [bcrypt.hash(data, 12)] rejects when the data is missing. *)
Definition bcrypt_hash (data : option string) : Exn + string :=
  match data with
  | Some d => inr (hash_fn d)
  | None => inl (BcryptError "data and salt arguments required")
  end.

(** The 200 of the signup route for the row [u] at instant [t]. *)
Definition registered (u : User) (t : Z) : Response :=
  {| status := 200; message := "User registered successfully";
     user := Some (summary u);
     set_cookies := [access_cookie env (minted_access hmac env u t);
                     refresh_cookie env (minted_refresh hmac env u t)] |}.

(** Lines 74-81, still inside the [try]: what the route does with the
    outcome of its insert. *)
Definition signup_inserted (result : Exn + list User) : Prog Response :=
  try_catch
    (rows ← await result;
     let u := head rows in
     accessToken ← createAccessToken hmac env u;
     refreshToken ← createRefreshToken hmac env u;
     u ← deref u;
     Ret {| status := 200; message := "User registered successfully";
            user := Some (summary u);
            set_cookies := [access_cookie env accessToken;
                            refresh_cookie env refreshToken] |})
    (fun _ => Ret (json 500 "Server error")).

Definition signup (req_body : option SignupBody) : Prog (Pending Response) :=
  match req_body with
  | None => Throw (destructure_undefined "name")
  | Some b =>
  let name := sb_name b in
  let email := sb_email b in
  let password := sb_password b in
  let confirm := sb_confirm b in
  if negb (bool_decide (password = confirm))
  then Ret (Settled (json 400 "Passwords do not match"))
  else
    try_catch
      (existingUser ← query (SelectByEmail email);
       match existingUser with
       | _ :: _ => Ret (Settled (json 400 "Email already registered"))
       | [] =>
           password_hash ← await (bcrypt_hash password);
           Ret (InsertUser name email password_hash signup_inserted)
       end)
      (fun _ => Ret (Settled (json 500 "Server error")))
  end.

End Signup.

(** The repository did not shrink or change, and the id sequence did not
    go back. *)
Definition repository_grew (w w' : World) : Prop :=
  users w `prefix_of` users w'
  /\ (length (users w') <= S (length (users w)))%nat
  /\ next_id w <= next_id w'.

Definition sample_hash (pw : string) : string := String.append "hash:" pw.

Definition bea_signup : SignupBody :=
  {| sb_name := Some "Bea"; sb_email := Some "b@x.com";
     sb_password := Some "pw2"; sb_confirm := Some "pw2" |}.

(** ** Logout and the routes behind the guard *)

(** What a route behind the guard answers: the response of the guard, a
    plain response of its own, or a body of its own with a status. *)
Inductive Answer (B : Type) : Type :=
| Plain (r : Response)
| Json (code : Z) (b : B).

Arguments Plain {B} r.
Arguments Json {B} code b.

(** [{ message, user: req.user }] *)
Record Welcome := mkWelcome {
  welcome_message : string;
  welcome_user : Payload
}.

(** A value in a template literal. *)
Definition template (s : option string) : string :=
  match s with
  | Some s => s
  | None => "undefined"
  end.

(** [res.clearCookie(name, options)] *)
Record ClearCookie := mkClearCookie {
  cleared_name : string;
  cleared_httpOnly : bool;
  cleared_secure : bool;
  cleared_sameSite : string
}.

Record LogoutResponse := mkLogoutResponse {
  logout_status : Z;
  logout_message : string;
  cleared : list ClearCookie
}.

Section Protected.
Variable hmac : string -> Payload -> string.
Variable env : Env.

(** [app.get(path, verifyAccessToken, handler)]: the handler runs when the
    guard calls [next()]. *)
Definition guarded {B : Type} (handler : Payload -> Prog (Answer B))
  (req : Request) : Prog (Answer B) :=
  g ← verifyAccessToken hmac env req;
  match g with
  | Next req_user => handler req_user
  | Responded r => Ret (Plain r)
  end.

Definition dashboard : Request -> Prog (Answer Welcome) :=
  guarded (fun req_user =>
    Ret (Json 200
           {| welcome_message :=
                String.append "Welcome " (template (p_email req_user));
              welcome_user := req_user |})).

(** The [/verify] route: [SELECT id, name, email FROM users WHERE id=$1]
    and [res.json({ user })], where [user] may be undefined. *)
Definition verify : Request -> Prog (Answer (option UserSummary)) :=
  guarded (fun req_user =>
    try_catch
      (userResult ← query (SelectById (p_id req_user));
       let u := head userResult in
       Ret (Json 200 (summary <$> u)))
      (fun _ => Ret (Plain (json 500 "Server error")))).

Definition clear_cookie (name : string) : ClearCookie :=
  {| cleared_name := name; cleared_httpOnly := true;
     cleared_secure := isProd env;
     cleared_sameSite := if isProd env then "Strict" else "Lax" |}.

Definition logout (req : Request) : Prog LogoutResponse :=
  Ret {| logout_status := 200; logout_message := "Logged out successfully";
         cleared := [clear_cookie "accessToken"; clear_cookie "refreshToken"] |}.

End Protected.

(** The flags a cookie was set with are those it is cleared with. *)
Definition clears (c : ClearCookie) (s : SetCookie) : Prop :=
  cleared_name c = cookie_name s
  /\ cleared_httpOnly c = httpOnly (cookie_options s)
  /\ cleared_secure c = secure (cookie_options s)
  /\ cleared_sameSite c = sameSite (cookie_options s).

(** ** More sample data *)

Definition alice_token : JwtString :=
  minted_access sample_hmac sample_env alice (now sample_world).

Definition alice_refresh_token : JwtString :=
  minted_refresh sample_hmac sample_env alice (now sample_world).

(** A signup for Alice's email. *)
Definition alice_again : SignupBody :=
  {| sb_name := Some "Alice II"; sb_email := Some "a@x.com";
     sb_password := Some "pw9"; sb_confirm := Some "pw9" |}.

Definition typo_signup : SignupBody :=
  {| sb_name := Some "Bea"; sb_email := Some "b@x.com";
     sb_password := Some "pw2"; sb_confirm := Some "pw3" |}.

Definition empty_signup : SignupBody :=
  {| sb_name := Some "Bea"; sb_email := Some "b@x.com";
     sb_password := None; sb_confirm := None |}.

(** An access secret of 85 bytes and, as refresh secret, the 32 bytes of
    its SHA-256 digest (a string without NUL that is valid UTF-8): two
    secrets that differ. *)
Definition long_access_secret : string :=
  "access-signing-secret-of-the-chatbot-backend-generated-2024-do-not-share-000159239098".

Definition digest_refresh_secret : string :=
  string_of_bytes
    [103; 232; 162; 177; 83; 85; 19; 39; 66; 126; 221; 182;
     74; 125; 61; 124; 50; 201; 151; 97; 119; 202; 150; 42;
     37; 56; 97; 117; 101; 38; 223; 138].

Arguments clock : simpl never.
Arguments timespan : simpl never.

(** ** Running programs: equations *)

Section RunLaws.
Variable sch : Schema.
Variable idp : option string -> string -> Exn + option GooglePayload.

Lemma run_bind {A B : Type} (p : Prog A) (f : A -> Prog B) (w : World) :
  run sch idp (bind p f) w =
  match run sch idp p w with
  | (inl e, w') => (inl e, w')
  | (inr a, w') => run sch idp (f a) w'
  end.
Proof.
  revert w. induction p as [a|e|k IH|q k IH|t a k IH]; intros w; simpl.
  - reflexivity.
  - reflexivity.
  - apply IH.
  - destruct (exec_query sch q w) as [r w']. apply IH.
  - apply IH.
Qed.

Lemma run_mbind {A B : Type} (p : Prog A) (f : A -> Prog B) (w : World) :
  run sch idp (p ≫= f) w =
  match run sch idp p w with
  | (inl e, w') => (inl e, w')
  | (inr a, w') => run sch idp (f a) w'
  end.
Proof. apply run_bind. Qed.

Lemma run_try_catch {A : Type} (p : Prog A) (h : Exn -> Prog A) (w : World) :
  run sch idp (try_catch p h) w =
  match run sch idp p w with
  | (inl e, w') => run sch idp (h e) w'
  | (inr a, w') => (inr a, w')
  end.
Proof.
  revert w. induction p as [a|e|k IH|q k IH|t a k IH]; intros w; simpl.
  - reflexivity.
  - reflexivity.
  - apply IH.
  - destruct (exec_query sch q w) as [r w']. apply IH.
  - apply IH.
Qed.

Lemma run_query (q : Query) (w : World) :
  run sch idp (query q) w =
  match exec_query sch q w with
  | (inl e, w') => (inl e, w')
  | (inr rows, w') => (inr rows, w')
  end.
Proof.
  unfold query. simpl. destruct (exec_query sch q w) as [[e|rows] w']; reflexivity.
Qed.

Lemma exec_query_up (q : Query) (w : World) :
  outages w = [] -> exec_query sch q w = exec_statement sch q w.
Proof. intros H. unfold exec_query. rewrite H. reflexivity. Qed.

(** Running a request to completion is stepping it, alone, until it has
    finished: every request finishes after finitely many steps. *)
Lemma run_by_steps {A : Type} (p : Prog A) (w : World) :
  exists n, let '(p', w') := steps sch idp n p w in
            outcome p' = Some (run sch idp p w).1 /\ w' = (run sch idp p w).2.
Proof.
  revert w. induction p as [a|e|k IH|q k IH|t a k IH]; intros w.
  - exists 0%nat. split; reflexivity.
  - exists 0%nat. split; reflexivity.
  - destruct (IH (now w) w) as [[|n] Hn].
    + exists 1%nat. cbn [steps step_proc run] in *.
      destruct (k (now w)) as [a|e|k'|q k'|t a k']; try (destruct Hn; discriminate);
        exact Hn.
    + exists (S n). exact Hn.
  - cbn [run]. destruct (exec_query sch q w) as [r w1] eqn:Hq.
    destruct (IH r w1) as [n Hn]. exists (S n).
    cbn [steps step_proc]. rewrite Hq. exact Hn.
  - destruct (IH (idp t a) w) as [n Hn]. exists (S n). exact Hn.
Qed.

End RunLaws.

(** ** Expiry arithmetic *)

Lemma timespan_15m (ts : Z) : timespan "15m" ts = Some (ts + 15 * 60).
Proof. reflexivity. Qed.

Lemma timespan_7d (ts : Z) : timespan "7d" ts = Some (ts + 7 * 24 * 60 * 60).
Proof. reflexivity. Qed.

(** The clock of [jwt.verify] has reached second [e] exactly when the
    instant has reached [e * 1000] milliseconds. *)
Lemma clock_reached (t e : Z) : (clock t >=? e) = (t >=? e * 1000).
Proof.
  unfold clock.
  pose proof (Z.div_mod t 1000 ltac:(lia)) as Hdm.
  pose proof (Z.mod_pos_bound t 1000 ltac:(lia)) as Hb.
  destruct (Z.geb_spec (t / 1000) e) as [H|H];
    destruct (Z.geb_spec t (e * 1000)) as [H'|H']; try reflexivity; lia.
Qed.

(** ** Token codec and access guard *)

Section Tokens.
Variable hmac : string -> Payload -> string.
Variable env : Env.
Variable sch : Schema.
Variable idp : option string -> string -> Exn + option GooglePayload.

Lemma run_createAccessToken (u : User) (w : World) :
  run sch idp (createAccessToken hmac env (Some u)) w
  = (inr (minted_access hmac env u (now w)), w).
Proof.
  unfold createAccessToken, jwt_sign. cbn [run]. rewrite timespan_15m. reflexivity.
Qed.

Lemma run_createRefreshToken (u : User) (w : World) :
  run sch idp (createRefreshToken hmac env (Some u)) w
  = (inr (minted_refresh hmac env u (now w)), w).
Proof.
  unfold createRefreshToken, jwt_sign. cbn [run]. rewrite timespan_7d. reflexivity.
Qed.

Lemma run_create_undefined (w : World) :
  run sch idp (createAccessToken hmac env None) w
  = (inl (undefined_property "id"), w).
Proof. reflexivity. Qed.

(** [jwt.verify] on a token whose signature matches the secret. *)
Lemma run_jwt_verify_signed (p : Payload) (secret : string) (w : World) :
  run sch idp (jwt_verify hmac (Some (Jws p (hmac secret p))) secret) w
  = match exp p with
    | Some e => if now w >=? e * 1000 then (inl TokenExpiredError, w) else (inr p, w)
    | None => (inr p, w)
    end.
Proof.
  unfold jwt_verify. simpl. rewrite String.eqb_refl. simpl.
  destruct (exp p) as [e|]; [|reflexivity].
  rewrite clock_reached. destruct (now w >=? e * 1000); reflexivity.
Qed.


Lemma run_verifyAccessToken (req : Request) (w : World) :
  run sch idp (verifyAccessToken hmac env req) w
  = if falsy (accessToken (cookies req))
    then (inr (Responded (json 401 "Unauthorized")), w)
    else match run sch idp (jwt_verify hmac (accessToken (cookies req)) (JWT_SECRET env)) w with
         | (inl _, w') => (inr (Responded (json 401 "Invalid or expired token")), w')
         | (inr p, w') => (inr (Next p), w')
         end.
Proof.
  unfold verifyAccessToken.
  destruct (falsy (accessToken (cookies req))); [reflexivity|].
  rewrite run_try_catch, run_mbind.
  destruct (run sch idp (jwt_verify hmac _ _) w) as [[e|p] w']; reflexivity.
Qed.

Lemma jwt_verify_keeps_world (t : option JwtString) (secret : string) (w : World) :
  (run sch idp (jwt_verify hmac t secret) w).2 = w.
Proof.
  unfold jwt_verify. simpl. destruct t as [[raw|p s]|]; try reflexivity.
  destruct (negb _); [reflexivity|].
  destruct (exp p) as [e|]; [|reflexivity].
  destruct (clock (now w) >=? e); reflexivity.
Qed.

(** C1: an access token minted for an account at instant [now w0] carries
    an expiry 15 minutes later; presented to the access guard at any
    instant strictly before that expiry it is accepted and the decoded
    payload carries the identity claim (id, email, name) it was minted
    from; presented at the expiry instant or later it is answered with
    401 "Invalid or expired token". *)
Theorem verify_access_of_mint_access (u : User) (req : Request) (w0 w1 : World) :
  exists (t : JwtString) (p : Payload),
    run sch idp (createAccessToken hmac env (Some u)) w0 = (inr t, w0)
    /\ exp p = Some (clock (now w0) + 15 * 60)
    /\ claims_of p = identity_claim u
    /\ run sch idp (verifyAccessToken hmac env (with_access_token t req)) w1
       = if now w1 <? (clock (now w0) + 15 * 60) * 1000
         then (inr (Next p), w1)
         else (inr (Responded (json 401 "Invalid or expired token")), w1).
Proof.
  exists (minted_access hmac env u (now w0)), (access_payload u (now w0)).
  split; [apply run_createAccessToken|].
  split; [reflexivity|]. split; [reflexivity|].
  unfold minted_access. rewrite run_verifyAccessToken.
  cbn [with_access_token cookies accessToken falsy].
  rewrite run_jwt_verify_signed. cbn [exp access_payload].
  rewrite Z.geb_leb, Z.ltb_antisym.
  destruct (_ <=? now w1); reflexivity.
Qed.


(** C4 (as the code has it): the access guard never throws and leaves the
    world as it is; each of its failures is answered with status 401 and a
    message alone, and the message tells the two failures apart:
    "Unauthorized" when no token is presented, "Invalid or expired token"
    when a token is presented and does not verify. *)
Theorem guard_failure_responses (req : Request) (w : World) :
  match run sch idp (verifyAccessToken hmac env req) w with
  | (inr (Next p), w') =>
      w' = w /\ falsy (accessToken (cookies req)) = false
  | (inr (Responded r), w') =>
      w' = w /\ status r = 401 /\ user r = None /\ set_cookies r = []
      /\ message r = if falsy (accessToken (cookies req))
                     then "Unauthorized" else "Invalid or expired token"
  | (inl _, _) => False
  end.
Proof.
  rewrite run_verifyAccessToken.
  destruct (falsy (accessToken (cookies req))) eqn:Hf.
  - simpl. auto.
  - pose proof (jwt_verify_keeps_world (accessToken (cookies req)) (JWT_SECRET env) w) as Hw.
    destruct (run sch idp (jwt_verify hmac _ _) w) as [[e|p] w']; simpl in *; auto.
Qed.

End Tokens.

(** ** The repository *)

Section Repository.
Variable sch : Schema.

Lemma filter_nil_not_Exists (P : User -> Prop) `{!forall u, Decision (P u)}
  (l : list User) : filter P l = [] -> ~ Exists P l.
Proof.
  intros Hf Hex. apply Exists_exists in Hex as (u & Hin & HP).
  exact (filter_nil_not_elem_of P l u Hf HP Hin).
Qed.

Lemma filter_cons_Exists (P : User -> Prop) `{!forall u, Decision (P u)}
  (l : list User) (u : User) (r : list User) :
  filter P l = u :: r -> Exists P l.
Proof.
  intros Hf. apply Exists_exists. exists u.
  assert (Hin : u ∈ filter P l) by (rewrite Hf; left).
  apply list_elem_of_filter in Hin. tauto.
Qed.

Lemma head_filter_list_find (P : User -> Prop) `{!forall u, Decision (P u)}
  (l : list User) : head (filter P l) = snd <$> list_find P l.
Proof.
  induction l as [|x l IH]; [reflexivity|].
  rewrite filter_cons. simpl.
  destruct (decide (P x)); simpl; [reflexivity|].
  rewrite IH. destruct (list_find P l) as [[i y]|]; reflexivity.
Qed.

(** With ids unique, [UPDATE ... WHERE id] touches the one row found. *)
Lemma link_by_id_is_insert (g : string) (l : list User) (i : nat) (u : User) :
  NoDup (user_id <$> l) -> l !! i = Some u ->
  link_google_id g (user_id u) <$> l = <[i := set_google_id g u]> l.
Proof.
  intros Hnd Hi. apply list_eq. intros j.
  rewrite list_lookup_fmap.
  destruct (decide (i = j)) as [->|Hne].
  - rewrite list_lookup_insert_eq by (eapply lookup_lt_Some; eauto).
    rewrite Hi. simpl. unfold link_google_id.
    destruct (decide (has_id (user_id u) u)) as [_|Hn]; [reflexivity|].
    exfalso. apply Hn. reflexivity.
  - rewrite list_lookup_insert_ne by assumption.
    destruct (l !! j) as [v|] eqn:Hj; [|reflexivity]. simpl. f_equal.
    unfold link_google_id.
    destruct (decide (has_id (user_id u) v)) as [Hid|_]; [|reflexivity].
    exfalso. apply Hne.
    apply (NoDup_lookup (user_id <$> l) i j (user_id u)); [assumption| |].
    + rewrite list_lookup_fmap, Hi. reflexivity.
    + rewrite list_lookup_fmap, Hj. simpl. f_equal. exact Hid.
Qed.

Lemma link_keeps_email (g : string) (i : Z) (u : User) :
  user_email (link_google_id g i u) = user_email u.
Proof. unfold link_google_id. destruct (decide _); reflexivity. Qed.


Lemma filter_email_link (g : string) (i : Z) (e : string) (l : list User) :
  filter (has_email e) (link_google_id g i <$> l)
  = link_google_id g i <$> filter (has_email e) l.
Proof.
  induction l as [|x l IH]; [reflexivity|].
  rewrite fmap_cons, !filter_cons.
  destruct (decide (has_email e (link_google_id g i x))) as [H1|H1];
    destruct (decide (has_email e x)) as [H2|H2];
    unfold has_email in H1, H2; rewrite link_keeps_email in H1;
    try contradiction; rewrite IH; reflexivity.
Qed.

Lemma link_hit (g : string) (i : Z) (u : User) :
  has_id i u -> link_google_id g i u = set_google_id g u.
Proof. intros H. unfold link_google_id. destruct (decide _); [reflexivity|contradiction]. Qed.

Lemma link_miss (g : string) (i : Z) (u : User) :
  ~ has_id i u -> link_google_id g i u = u.
Proof. intros H. unfold link_google_id. destruct (decide _); [contradiction|reflexivity]. Qed.

(** Once no row carries [g], the rows that carry it after linking are the
    linked rows. *)
Lemma filter_google_link (g : string) (i : Z) (l : list User) :
  filter (has_google_id g) l = [] ->
  filter (has_google_id g) (link_google_id g i <$> l)
  = set_google_id g <$> filter (has_id i) l.
Proof.
  induction l as [|x l IH]; [reflexivity|].
  rewrite fmap_cons, (filter_cons (has_google_id g) x l).
  destruct (decide (has_google_id g x)) as [|Hng]; [discriminate|].
  intros Hf. specialize (IH Hf).
  destruct (decide (has_id i x)) as [Hid|Hid].
  - rewrite (link_hit g i x Hid).
    rewrite filter_cons_True by reflexivity.
    rewrite (filter_cons_True (has_id i)) by assumption.
    rewrite IH. reflexivity.
  - rewrite (link_miss g i x Hid).
    rewrite filter_cons_False by assumption.
    rewrite (filter_cons_False (has_id i)) by assumption.
    exact IH.
Qed.

Lemma filter_id_unique (l : list User) (u : User) :
  NoDup (user_id <$> l) -> u ∈ l -> filter (has_id (user_id u)) l = [u].
Proof.
  induction l as [|x l IH]; intros Hnd Hin.
  - inversion Hin.
  - rewrite fmap_cons in Hnd. apply NoDup_cons in Hnd as [Hx Hnd].
    rewrite filter_cons.
    destruct (decide (has_id (user_id u) x)) as [Hid|Hid].
    + assert (Hux : u = x).
      { apply elem_of_cons in Hin as [Heq|Hin]; [assumption|].
        exfalso. apply Hx. unfold has_id in Hid. rewrite Hid.
        apply list_elem_of_fmap. exists u. split; [reflexivity|assumption]. }
      subst x. f_equal.
      destruct (filter (has_id (user_id u)) l) as [|y r] eqn:Hf; [reflexivity|].
      exfalso. apply Hx.
      assert (Hy : y ∈ filter (has_id (user_id u)) l) by (rewrite Hf; left).
      apply list_elem_of_filter in Hy as [Hyid Hy].
      apply list_elem_of_fmap. exists y. split; [symmetry; exact Hyid|assumption].
    + apply elem_of_cons in Hin as [Heq|Hin].
      * subst x. exfalso. apply Hid. reflexivity.
      * apply IH; assumption.
Qed.

End Repository.

(** ** Account resolution, one request at a time *)

Section Resolver.
Variable sch : Schema.
Variable idp : option string -> string -> Exn + option GooglePayload.

(** The three branches of lines 128-147 against a reachable repository;
    neither uniqueness constraint can fire. *)
Lemma run_resolve_external (identity : GooglePayload) (w : World) :
  outages w = [] ->
  run sch idp (resolve_external identity) w =
  match filter (has_google_id (sub identity)) (users w) with
  | u :: _ => (inr (Some u), w)
  | [] =>
      match filter (has_email (g_email identity)) (users w) with
      | u :: _ =>
          (inr (Some u),
           set_users (link_google_id (sub identity) (user_id u) <$> users w) w)
      | [] =>
          let row := new_google_user (next_id w) (g_name identity)
                       (g_email identity) (sub identity) in
          (inr (Some row), bump_id (set_users (users w ++ [row]) w))
      end
  end.
Proof.
  intros Hup. unfold resolve_external.
  rewrite run_mbind, run_query, exec_query_up by assumption.
  cbn [exec_statement].
  destruct (filter (has_google_id (sub identity)) (users w)) as [|u r] eqn:Hg;
    [|reflexivity].
  rewrite run_mbind, run_query, exec_query_up by assumption.
  cbn [exec_statement].
  destruct (filter (has_email (g_email identity)) (users w)) as [|u r] eqn:He.
  - rewrite run_mbind, run_query, exec_query_up by assumption.
    cbn [exec_statement].
    rewrite (bool_decide_eq_false_2 (Exists (has_email _) _))
      by exact (filter_nil_not_Exists (has_email _) _ He).
    rewrite (bool_decide_eq_false_2 (Exists (has_google_id _) _))
      by exact (filter_nil_not_Exists (has_google_id _) _ Hg).
    rewrite !andb_false_r. reflexivity.
  - rewrite run_mbind, run_query, exec_query_up by assumption.
    cbn [exec_statement].
    rewrite (bool_decide_eq_false_2 (Exists (fun u => has_google_id _ u /\ _) _)).
    + rewrite andb_false_r. reflexivity.
    + intros Hex. apply Exists_exists in Hex as (v & Hin & Hv & _).
      exact (filter_nil_not_elem_of _ _ v Hg Hv Hin).
Qed.

Lemma list_find_google (g : string) (l : list User) :
  list_find (fun account => google_id account = Some g) l
  = list_find (has_google_id g) l.
Proof. apply list_find_ext. intros u. reflexivity. Qed.

Lemma list_find_email (e : string) (l : list User) :
  list_find (fun account => user_email account = e) l
  = list_find (has_email e) l.
Proof. apply list_find_ext. intros u. reflexivity. Qed.

(** C5: against a reachable repository whose ids are unique, the resolver
    does what its three-way specification says, in that order, and leaves
    the repository the specification describes: the account carrying the
    identity's external id is returned and nothing changes; else the first
    account with the identity's email has the external id stored on it;
    else a new account with the identity's name, email and external id
    and no password hash is appended.  The account returned is the one the
    specification returns, with the same id, name, email and password
    hash; in the linking branch the value handed back is the row as it was
    read, of which the specification's record is the stored version. *)
Theorem resolve_external_precedence (identity : GooglePayload) (w : World) :
  outages w = [] ->
  NoDup (user_id <$> users w) ->
  exists returned : User,
    run sch idp (resolve_external identity) w
    = (inr (Some returned), (resolve_external_spec identity w).2)
    /\ user_id returned = user_id (resolve_external_spec identity w).1
    /\ user_name returned = user_name (resolve_external_spec identity w).1
    /\ user_email returned = user_email (resolve_external_spec identity w).1
    /\ password_hash returned = password_hash (resolve_external_spec identity w).1
    /\ (returned = (resolve_external_spec identity w).1
        \/ (list_find (fun account => google_id account = Some (sub identity))
                      (users w) = None
            /\ exists i,
                 list_find (fun account => user_email account = g_email identity)
                           (users w) = Some (i, returned)
                 /\ google_id (resolve_external_spec identity w).1
                    = Some (sub identity))).
Proof.
  intros Hup Hnd. rewrite run_resolve_external by assumption.
  unfold resolve_external_spec. rewrite list_find_google, list_find_email.
  pose proof (head_filter_list_find (has_google_id (sub identity)) (users w)) as Hg.
  pose proof (head_filter_list_find (has_email (g_email identity)) (users w)) as He.
  destruct (filter (has_google_id (sub identity)) (users w)) as [|u r];
    destruct (list_find (has_google_id (sub identity)) (users w)) as [[i a]|];
    simpl in Hg; try discriminate.
  - destruct (filter (has_email (g_email identity)) (users w)) as [|u r];
      destruct (list_find (has_email (g_email identity)) (users w)) as [[i a]|] eqn:Hfind;
      simpl in He; try discriminate.
    + eexists. split; [reflexivity|]. cbn. repeat split. left. reflexivity.
    + injection He as ->.
      pose proof Hfind as Hfind'.
      apply list_find_Some in Hfind as (Hi & _ & _).
      exists a. split.
      * rewrite (link_by_id_is_insert _ _ i a) by assumption. reflexivity.
      * cbn. repeat split. right. split; [reflexivity|].
        exists i. split; reflexivity.
  - injection Hg as ->. exists a. split; [reflexivity|].
    cbn. repeat split. left. reflexivity.
Qed.

(** C7: against a reachable repository with unique ids in which some
    account has the identity's email, resolving the same identity twice in
    a row returns the same account both times (same id, name and email),
    the second call changes nothing, and the number of accounts, in total
    and with that email, is what it was before the first call. *)
Theorem resolve_external_twice (identity : GooglePayload) (w0 : World) :
  outages w0 = [] ->
  NoDup (user_id <$> users w0) ->
  Exists (has_email (g_email identity)) (users w0) ->
  exists (a1 a2 : User) (w1 : World),
    run sch idp (resolve_external identity) w0 = (inr (Some a1), w1)
    /\ run sch idp (resolve_external identity) w1 = (inr (Some a2), w1)
    /\ (a2 = a1 \/ a2 = set_google_id (sub identity) a1)
    /\ user_id a1 = user_id a2
    /\ summary a1 = summary a2
    /\ length (users w1) = length (users w0)
    /\ length (filter (has_email (g_email identity)) (users w1))
       = length (filter (has_email (g_email identity)) (users w0)).
Proof.
  intros Hup Hnd Hex.
  rewrite run_resolve_external by assumption.
  destruct (filter (has_google_id (sub identity)) (users w0)) as [|u r] eqn:Hg.
  - destruct (filter (has_email (g_email identity)) (users w0)) as [|u r] eqn:He.
    { exfalso. exact (filter_nil_not_Exists (has_email _) _ He Hex). }
    assert (Hin : u ∈ users w0).
    { assert (Hin : u ∈ filter (has_email (g_email identity)) (users w0))
        by (rewrite He; left).
      apply list_elem_of_filter in Hin. tauto. }
    eexists u, (set_google_id (sub identity) u), _.
    split; [reflexivity|].
    split.
    + rewrite run_resolve_external by assumption.
      cbn [users set_users].
      rewrite filter_google_link by assumption.
      rewrite filter_id_unique by assumption. reflexivity.
    + cbn [users set_users]. repeat split.
      * right. reflexivity.
      * apply length_fmap.
      * rewrite filter_email_link, He. apply length_fmap.
  - exists u, u, w0. split; [reflexivity|].
    split.
    + rewrite run_resolve_external by assumption. rewrite Hg. reflexivity.
    + repeat split. left. reflexivity.
Qed.

End Resolver.

(** ** Sessions: refresh, signin, Google sign-in *)

Section Sessions.
Variable hmac : string -> Payload -> string.
Variable bcrypt_check : string -> string -> bool.
Variable env : Env.
Variable sch : Schema.
Variable idp : option string -> string -> Exn + option GooglePayload.

(** The refresh route on a refresh token minted by this service, before
    the token's expiry and with the repository reachable. *)
Lemma run_refresh_token_minted (u0 : User) (req : Request) (w0 w1 : World) :
  outages w1 = [] ->
  now w1 < (clock (now w0) + 7 * 24 * 60 * 60) * 1000 ->
  run sch idp
    (refresh_token hmac env
       (with_refresh_token (minted_refresh hmac env u0 (now w0)) req)) w1
  = match filter (has_id (user_id u0)) (users w1) with
    | u1 :: _ =>
        (inr {| status := 200; message := "Access token refreshed";
                user := None;
                set_cookies :=
                  [access_cookie env (minted_access hmac env u1 (now w1))] |},
         w1)
    | [] => (inr (json 401 "Invalid or expired refresh token"), w1)
    end.
Proof.
  intros Hup Hlt. unfold minted_refresh, refresh_token.
  cbn [with_refresh_token cookies refreshToken falsy].
  rewrite run_try_catch, run_mbind, run_jwt_verify_signed.
  cbn [exp refresh_payload].
  replace (now w1 >=? (clock (now w0) + 7 * 24 * 60 * 60) * 1000) with false
    by (symmetry; rewrite Z.geb_leb; apply Z.leb_gt; exact Hlt).
  rewrite run_mbind, run_query, exec_query_up by assumption.
  cbn [exec_statement p_id refresh_payload].
  destruct (filter (has_id (user_id u0)) (users w1)) as [|u1 r].
  - reflexivity.
  - cbn [head]. rewrite run_mbind, run_createAccessToken. reflexivity.
Qed.

(** The refresh route on a cookie that is not a signed token. *)
Lemma run_refresh_token_malformed (raw : string) (req : Request) (w : World) :
  raw <> "" ->
  run sch idp (refresh_token hmac env (with_refresh_token (Malformed raw) req)) w
  = (inr (json 401 "Invalid or expired refresh token"), w).
Proof.
  intros Hraw. unfold refresh_token.
  cbn [with_refresh_token cookies refreshToken].
  destruct raw as [|c raw]; [contradiction|]. reflexivity.
Qed.

(** C3 (what the code does): a refresh token that verifies, presented when
    no account has its id, is answered exactly like a cookie that is not a
    token at all: 401 "Invalid or expired refresh token". *)
Theorem refresh_account_missing (u0 : User) (req : Request) (w0 w1 : World) :
  outages w1 = [] ->
  now w1 < (clock (now w0) + 7 * 24 * 60 * 60) * 1000 ->
  filter (has_id (user_id u0)) (users w1) = [] ->
  exists rt : JwtString,
    run sch idp (createRefreshToken hmac env (Some u0)) w0 = (inr rt, w0)
    /\ run sch idp (refresh_token hmac env (with_refresh_token rt req)) w1
       = (inr (json 401 "Invalid or expired refresh token"), w1)
    /\ run sch idp
         (refresh_token hmac env (with_refresh_token (Malformed "garbage") req)) w1
       = (inr (json 401 "Invalid or expired refresh token"), w1).
Proof.
  intros Hup Hlt Hnone. exists (minted_refresh hmac env u0 (now w0)).
  split; [apply run_createRefreshToken|]. split.
  - rewrite run_refresh_token_minted by assumption. rewrite Hnone. reflexivity.
  - apply run_refresh_token_malformed. discriminate.
Qed.

(** C6: a refresh token minted for account [u0] carries the id alone; when
    it is presented before its expiry and the repository, reachable, now
    holds [u1] as the account of that id, the route answers 200 and sets
    one cookie, named accessToken, whose value is a token signed with the
    access secret over a payload that carries the name and email of [u1],
    whatever they were when the refresh token was minted; the access
    guard accepts that token with that payload. *)
Theorem refresh_reads_current_account
  (u0 u1 : User) (rest : list User) (req : Request) (w0 w1 : World) :
  outages w1 = [] ->
  now w1 < (clock (now w0) + 7 * 24 * 60 * 60) * 1000 ->
  filter (has_id (user_id u0)) (users w1) = u1 :: rest ->
  exists (rt at_ : JwtString) (rp p : Payload) (sig : string),
    run sch idp (createRefreshToken hmac env (Some u0)) w0 = (inr rt, w0)
    /\ rt = Jws rp sig
    /\ claims_of rp = {| c_id := user_id u0; c_email := None; c_name := None |}
    /\ run sch idp (refresh_token hmac env (with_refresh_token rt req)) w1
       = (inr {| status := 200; message := "Access token refreshed";
                 user := None;
                 set_cookies :=
                   [{| cookie_name := "accessToken"; cookie_value := at_;
                       cookie_options :=
                         {| httpOnly := true; secure := isProd env;
                            sameSite := if isProd env then "Strict" else "Lax";
                            maxAge := 15 * 60 * 1000 |} |}] |}, w1)
    /\ at_ = Jws p (hmac (JWT_SECRET env) p)
    /\ p = {| p_id := user_id u0; p_email := Some (user_email u1);
              p_name := Some (user_name u1); iat := clock (now w1);
              exp := Some (clock (now w1) + 15 * 60) |}
    /\ run sch idp (verifyAccessToken hmac env (with_access_token at_ req)) w1
       = (inr (Next p), w1)
    /\ claims_of p = {| c_id := user_id u0; c_email := Some (user_email u1);
                        c_name := Some (user_name u1) |}.
Proof.
  intros Hup Hlt Hrows.
  assert (Hid : user_id u1 = user_id u0).
  { assert (Hin : u1 ∈ filter (has_id (user_id u0)) (users w1))
      by (rewrite Hrows; left).
    apply list_elem_of_filter in Hin as [Hid _]. exact Hid. }
  exists (minted_refresh hmac env u0 (now w0)), (minted_access hmac env u1 (now w1)),
         (refresh_payload u0 (now w0)), (access_payload u1 (now w1)),
         (hmac (REFRESH_TOKEN_SECRET env) (refresh_payload u0 (now w0))).
  split; [apply run_createRefreshToken|].
  split; [reflexivity|]. split; [reflexivity|]. split.
  { rewrite run_refresh_token_minted by assumption. rewrite Hrows. reflexivity. }
  split; [reflexivity|]. split.
  { unfold access_payload. rewrite Hid. reflexivity. }
  split.
  - unfold minted_access. rewrite run_verifyAccessToken.
    cbn [with_access_token cookies accessToken falsy].
    rewrite run_jwt_verify_signed. cbn [exp access_payload].
    replace (now w1 >=? (clock (now w1) + 15 * 60) * 1000) with false;
      [reflexivity|].
    symmetry. rewrite Z.geb_leb. apply Z.leb_gt.
    unfold clock.
    pose proof (Z.div_mod (now w1) 1000 ltac:(lia)).
    pose proof (Z.mod_pos_bound (now w1) 1000 ltac:(lia)). lia.
  - unfold claims_of, access_payload. cbn. rewrite Hid. reflexivity.
Qed.

(** The signin route against a reachable repository. *)
Lemma run_signin (c : Cookies) (b : Body) (w : World) :
  outages w = [] ->
  run sch idp (signin hmac bcrypt_check env {| cookies := c; body := Some b |}) w
  = match (match email b with
           | Some e => filter (has_email e) (users w)
           | None => []
           end) with
    | [] => (inr (json 400 "Invalid email or password"), w)
    | u :: _ =>
        match bcrypt_compare bcrypt_check (password b) (password_hash u) with
        | inl _ => (inr (json 500 "Server error"), w)
        | inr false => (inr (json 400 "Invalid email or password"), w)
        | inr true =>
            (inr {| status := 200; message := "Login successful";
                    user := Some (summary u);
                    set_cookies :=
                      [access_cookie env (minted_access hmac env u (now w));
                       refresh_cookie env (minted_refresh hmac env u (now w))] |},
             w)
        end
    end.
Proof.
  intros Hup. unfold signin. cbn [body].
  rewrite run_try_catch, run_mbind, run_query, exec_query_up by assumption.
  assert (Hq : exec_statement sch (SelectByEmail (email b)) w
               = (inr (match email b with
                       | Some e => filter (has_email e) (users w)
                       | None => []
                       end), w))
    by (destruct (email b); reflexivity).
  rewrite Hq. clear Hq.
  destruct (match email b with Some e => _ | None => _ end) as [|u r];
    [reflexivity|].
  rewrite run_mbind.
  destruct (bcrypt_compare bcrypt_check (password b) (password_hash u))
    as [e|[|]]; cbn [await run negb]; [reflexivity| |reflexivity].
  rewrite run_mbind, run_createAccessToken, run_mbind, run_createRefreshToken.
  reflexivity.
Qed.

(** Signin does not tell an unknown email from a wrong password when the
    account has a password hash and a password is supplied. *)
Lemma signin_wrong_password_as_unknown_email
  (e e' pw h : string) (u : User) (rest : list User) (req : Request) (w : World) :
  outages w = [] ->
  filter (has_email e) (users w) = u :: rest ->
  password_hash u = Some h ->
  bcrypt_check pw h = false ->
  filter (has_email e') (users w) = [] ->
  run sch idp (signin hmac bcrypt_check env (signin_request (Some e) (Some pw) req)) w
  = run sch idp (signin hmac bcrypt_check env (signin_request (Some e') (Some pw) req)) w.
Proof.
  intros Hup He Hh Hpw He'. unfold signin_request.
  rewrite !run_signin by assumption.
  cbn [email password]. rewrite He, He', Hh.
  cbn [bcrypt_compare]. rewrite Hpw. reflexivity.
Qed.

(** C8 (what the code does): for an account without a password hash, as
    Google sign-in creates them, signin with the account's email is
    answered 500 "Server error" whatever the password, while an email that
    no account has is answered 400 "Invalid email or password". *)
Theorem signin_account_without_password_hash
  (e e' : string) (pw : option string) (u : User) (rest : list User)
  (req : Request) (w : World) :
  outages w = [] ->
  filter (has_email e) (users w) = u :: rest ->
  password_hash u = None ->
  filter (has_email e') (users w) = [] ->
  run sch idp (signin hmac bcrypt_check env (signin_request (Some e) pw req)) w
  = (inr (json 500 "Server error"), w)
  /\ run sch idp (signin hmac bcrypt_check env (signin_request (Some e') pw req)) w
     = (inr (json 400 "Invalid email or password"), w).
Proof.
  intros Hup He Hh He'. unfold signin_request.
  rewrite !run_signin by assumption.
  cbn [email password]. rewrite He, He', Hh.
  split; [|reflexivity]. destruct pw; reflexivity.
Qed.

(** *** Google sign-in *)

Lemma exec_statement_outages (q : Query) (w : World) :
  outages (exec_statement sch q w).2 = outages w.
Proof.
  destruct q as [[e|]|g|i|n e g|g i]; cbn [exec_statement]; try reflexivity.
  - destruct (_ && _); [reflexivity|]. destruct (_ && _); reflexivity.
  - destruct (_ && _); reflexivity.
Qed.

(** A query either meets an unreachable repository and is rejected, or
    uses up one reachable slot, or runs with no outage pending. *)
Lemma exec_query_outages (q : Query) (w : World) :
  (exists o, outages w = true :: o
             /\ exec_query sch q w
                = (inl (DatabaseError "connection refused"), set_outages o w))
  \/ (exists o, outages w = false :: o
                /\ outages (exec_query sch q w).2 = o)
  \/ (outages w = [] /\ outages (exec_query sch q w).2 = []).
Proof.
  unfold exec_query. destruct (outages w) as [|[|] o] eqn:Ho.
  - right. right. split; [reflexivity|].
    rewrite exec_statement_outages. exact Ho.
  - left. exists o. split; reflexivity.
  - right. left. exists o. split; [reflexivity|].
    rewrite exec_statement_outages. reflexivity.
Qed.

Lemma reachable_refl (w : World) : reachable_throughout w w.
Proof. exists []. split; [reflexivity|constructor]. Qed.

Lemma reachable_query (q : Query) (w w2 : World) (rows : list User) :
  exec_query sch q w = (inr rows, w2) -> reachable_throughout w w2.
Proof.
  intros Hq.
  destruct (exec_query_outages q w) as [(o & Ho & Hx)|[(o & Ho & Hx)|(Ho & Hx)]];
    rewrite Hq in Hx; simpl in Hx.
  - discriminate.
  - exists [false]. split; [rewrite Ho, Hx; reflexivity|repeat constructor].
  - exists []. split; [rewrite Ho, Hx; reflexivity|constructor].
Qed.

Lemma reachable_trans (w1 w2 w3 : World) :
  reachable_throughout w1 w2 -> reachable_throughout w2 w3 ->
  reachable_throughout w1 w3.
Proof.
  intros (u1 & H1 & F1) (u2 & H2 & F2). exists (u1 ++ u2). split.
  - rewrite H1, H2, app_assoc. reflexivity.
  - apply Forall_app. split; assumption.
Qed.

(** The resolver returns only if every query it issued found the
    repository reachable. *)
Lemma resolve_external_reachable
  (identity : GooglePayload) (w w' : World) (u : option User) :
  run sch idp (resolve_external identity) w = (inr u, w') ->
  reachable_throughout w w'.
Proof.
  unfold resolve_external. rewrite run_mbind, run_query.
  destruct (exec_query sch (SelectByGoogleId _) w) as [[e|rows] w1] eqn:H1;
    [discriminate|].
  apply reachable_query in H1.
  destruct rows as [|x0 rows]; cbn [run].
  2:{ intros [= _ <-]. exact H1. }
  rewrite run_mbind, run_query.
  destruct (exec_query sch (SelectByEmail _) w1) as [[e|rows2] w2] eqn:H2;
    [discriminate|].
  apply reachable_query in H2.
  destruct rows2 as [|x rows2]; rewrite run_mbind, run_query.
  - destruct (exec_query sch (InsertGoogle _ _ _) w2) as [[e|rows3] w3] eqn:H3;
      [discriminate|].
    apply reachable_query in H3. cbn [run]. intros [= _ <-].
    eauto using reachable_trans.
  - destruct (exec_query sch (UpdateGoogleId _ _) w2) as [[e|rows3] w3] eqn:H3;
      [discriminate|].
    apply reachable_query in H3. cbn [run]. intros [= _ <-].
    eauto using reachable_trans.
Qed.

(** A resolver whose first query meets an unreachable repository throws. *)
Lemma resolve_external_outage
  (identity : GooglePayload) (w : World) (o : list bool) :
  outages w = true :: o ->
  run sch idp (resolve_external identity) w
  = (inl (DatabaseError "connection refused"), set_outages o w).
Proof.
  intros Ho. unfold resolve_external. rewrite run_mbind, run_query.
  unfold exec_query. rewrite Ho. reflexivity.
Qed.

(** The Google route on a request that carries a body: what it answers,
    by the verdict of the identity provider and the outcome of the
    resolver. *)
Lemma run_google_auth (c : Cookies) (b : Body) (w : World) :
  run sch idp (google_auth hmac env {| cookies := c; body := Some b |}) w
  = match idp (token b) (GOOGLE_CLIENT_ID env) with
    | inr (Some payload) =>
        match run sch idp (resolve_external payload) w with
        | (inr (Some u), w') =>
            (inr {| status := 200; message := "Google login successful";
                    user := Some (summary u);
                    set_cookies :=
                      [access_cookie env (minted_access hmac env u (now w'));
                       refresh_cookie env (minted_refresh hmac env u (now w'))] |},
             w')
        | (_, w') => (inr (json 401 "Google authentication failed"), w')
        end
    | _ => (inr (json 401 "Google authentication failed"), w)
    end.
Proof.
  unfold google_auth. cbn [body]. rewrite run_try_catch.
  change (VerifyIdToken (token b) (GOOGLE_CLIENT_ID env) await ≫= ?f)
    with (VerifyIdToken (token b) (GOOGLE_CLIENT_ID env)
            (fun r => bind (await r) f)).
  cbn [run].
  destruct (idp (token b) (GOOGLE_CLIENT_ID env)) as [e|[payload|]];
    [reflexivity| |reflexivity].
  cbn [await bind]. rewrite run_mbind.
  destruct (run sch idp (resolve_external payload) w) as [[e|[u|]] w'];
    [reflexivity| |reflexivity].
  rewrite run_mbind, run_createAccessToken, run_mbind, run_createRefreshToken.
  reflexivity.
Qed.

(** A request without body makes the Google route throw at its first
    line, before the [try] and before any effect. *)
Lemma run_google_auth_bodyless (c : Cookies) (w : World) :
  run sch idp (google_auth hmac env {| cookies := c; body := None |}) w
  = (inl (destructure_undefined "token"), w).
Proof. reflexivity. Qed.

(** C10 (as the code has it): for a request that carries a body the
    Google route never throws.  Whatever fails inside its [try] (the
    identity provider rejects the assertion or returns no payload, or the
    resolver throws because a lookup, insert or update was rejected or met
    an unreachable repository), the answer is the one response
    401 "Google authentication failed" with no cookie; the only other
    answer is the 200 of a successful sign-in, which requires a verified
    payload and a repository reachable at every query issued. *)
Theorem google_auth_failures_collapse (req : Request) (b : Body) (w : World) :
  body req = Some b ->
  run sch idp (google_auth hmac env req) w
  = match idp (token b) (GOOGLE_CLIENT_ID env) with
    | inr (Some payload) =>
        match run sch idp (resolve_external payload) w with
        | (inr (Some u), w') =>
            (inr {| status := 200; message := "Google login successful";
                    user := Some (summary u);
                    set_cookies :=
                      [access_cookie env (minted_access hmac env u (now w'));
                       refresh_cookie env (minted_refresh hmac env u (now w'))] |},
             w')
        | (_, w') => (inr (json 401 "Google authentication failed"), w')
        end
    | _ => (inr (json 401 "Google authentication failed"), w)
    end
  /\ match run sch idp (google_auth hmac env req) w with
     | (inr r, w') =>
         r = json 401 "Google authentication failed"
         \/ (status r = 200
             /\ (exists payload,
                   idp (token b) (GOOGLE_CLIENT_ID env) = inr (Some payload))
             /\ reachable_throughout w w')
     | (inl _, _) => False
     end
  /\ match idp (token b) (GOOGLE_CLIENT_ID env), outages w with
     | inr (Some _), true :: o =>
         run sch idp (google_auth hmac env req) w
         = (inr (json 401 "Google authentication failed"), set_outages o w)
     | _, _ => True
     end.
Proof.
  destruct req as [c bd]. cbn [body]. intros ->.
  split; [apply run_google_auth|]. split.
  - rewrite run_google_auth.
    destruct (idp (token b) (GOOGLE_CLIENT_ID env)) as [e|[payload|]];
      [left; reflexivity| |left; reflexivity].
    destruct (run sch idp (resolve_external payload) w) as [[e|[u|]] w'] eqn:Hr;
      [left; reflexivity| |left; reflexivity].
    right. split; [reflexivity|]. split; [eexists; reflexivity|].
    eapply resolve_external_reachable. exact Hr.
  - rewrite run_google_auth.
    destruct (idp (token b) (GOOGLE_CLIENT_ID env)) as [e|[payload|]];
      [exact I| |exact I].
    destruct (outages w) as [|[|] o] eqn:Ho; [exact I| |exact I].
    rewrite (resolve_external_outage payload w o Ho). reflexivity.
Qed.

End Sessions.

(** ** Concurrent sign-ins for one email *)

Section Concurrent.
Variable sch : Schema.
Variable idp : option string -> string -> Exn + option GooglePayload.
Variable e : string.
Variable identities : list GooglePayload.
Hypothesis email_is_unique : unique_email sch = true.
Hypothesis same_email : Forall (fun i => g_email i = e) identities.

Lemma step_start (i : GooglePayload) (w : World) :
  step_proc sch idp (resolve_external i) w
  = let '(r, w') := exec_query sch (SelectByGoogleId (sub i)) w in
    (match r with
     | inl ex => Throw ex
     | inr [] => resolve_by_email i
     | inr (u :: _) => Ret (Some u)
     end, w').
Proof.
  unfold resolve_external. cbn [mbind prog_bind query bind step_proc].
  destruct (exec_query sch (SelectByGoogleId (sub i)) w) as [[ex|[|u r]] w'];
    reflexivity.
Qed.

Lemma step_by_email (i : GooglePayload) (w : World) :
  step_proc sch idp (resolve_by_email i) w
  = let '(r, w') := exec_query sch (SelectByEmail (Some (g_email i))) w in
    (match r with
     | inl ex => Throw ex
     | inr [] => create_new i
     | inr (u :: _) => link_found i u
     end, w').
Proof.
  unfold resolve_by_email. cbn [mbind prog_bind query bind step_proc].
  destruct (exec_query sch (SelectByEmail (Some (g_email i))) w) as [[ex|[|u r]] w'];
    reflexivity.
Qed.

Lemma step_link (i : GooglePayload) (u : User) (w : World) :
  step_proc sch idp (link_found i u) w
  = let '(r, w') := exec_query sch (UpdateGoogleId (sub i) (user_id u)) w in
    (match r with
     | inl ex => Throw ex
     | inr _ => Ret (Some u)
     end, w').
Proof.
  unfold link_found. cbn [mbind prog_bind query bind step_proc].
  destruct (exec_query sch (UpdateGoogleId (sub i) (user_id u)) w) as [[ex|rows] w'];
    reflexivity.
Qed.

Lemma step_create (i : GooglePayload) (w : World) :
  step_proc sch idp (create_new i) w
  = let '(r, w') := exec_query sch (InsertGoogle (g_name i) (g_email i) (sub i)) w in
    (match r with
     | inl ex => Throw ex
     | inr rows => Ret (head rows)
     end, w').
Proof.
  unfold create_new. cbn [mbind prog_bind query bind step_proc].
  destruct (exec_query sch (InsertGoogle (g_name i) (g_email i) (sub i)) w)
    as [[ex|rows] w']; reflexivity.
Qed.

Lemma step_finished (p : Prog (option User)) (w : World) :
  finished p = true -> step_proc sch idp p w = (p, w).
Proof. destruct p; try discriminate; reflexivity. Qed.

Lemma proc_ok_mono (w w' : World) (p : Prog (option User)) :
  (Exists (has_email e) (users w) -> Exists (has_email e) (users w')) ->
  proc_ok e identities w p -> proc_ok e identities w' p.
Proof.
  intros Hmono Hok.
  destruct Hok; [apply ok_start|apply ok_by_email|apply ok_link
                 |apply ok_create|apply ok_finished]; auto.
Qed.

Lemma Exists_email_link (g : string) (i : Z) (l : list User) :
  Exists (has_email e) l -> Exists (has_email e) (link_google_id g i <$> l).
Proof.
  intros Hex. apply Exists_fmap.
  eapply Exists_impl; [exact Hex|].
  intros u Hu. unfold compose, has_email. rewrite link_keeps_email. exact Hu.
Qed.

(** Replacing the stepped resolver and the world keeps the invariant when
    the new world keeps its four properties. *)
Lemma inv_update (s : System (option User)) (w' : World) (k : nat)
  (p' : Prog (option User)) :
  resolvers_inv e identities s ->
  outages w' = [] ->
  (accounts_with_email e w' <= 1)%nat ->
  (Exists (has_email e) (users (world s)) -> Exists (has_email e) (users w')) ->
  (linked_to_any identities w' -> Exists (has_email e) (users w')) ->
  proc_ok e identities w' p' ->
  resolvers_inv e identities {| world := w'; procs := <[k := p']> (procs s) |}.
Proof.
  intros [Hup Hone Hlinked Hprocs Hcount] Hup' Hone' Hmono Hlinked' Hok.
  constructor; cbn [world procs]; try assumption.
  - apply Forall_insert; [|assumption].
    eapply Forall_impl; [exact Hprocs|].
    intros p Hp. eapply proc_ok_mono; eassumption.
  - rewrite length_insert. exact Hcount.
Qed.

Lemma sys_step_inv (k : nat) (s : System (option User)) :
  resolvers_inv e identities s ->
  resolvers_inv e identities (sys_step sch idp k s).
Proof.
  intros Hinv. pose proof Hinv as [Hup Hone Hlinked Hprocs Hcount].
  unfold sys_step. destruct (procs s !! k) as [p|] eqn:Hp; [|exact Hinv].
  pose proof (Forall_lookup_1 _ _ _ _ Hprocs Hp) as Hok.
  destruct Hok as [i Hin|i Hin|i u Hin Hex|i Hin|p Hfin Hex].
  - (* at the lookup by external id *)
    rewrite step_start, exec_query_up by assumption. cbn [exec_statement].
    destruct (filter (has_google_id (sub i)) (users (world s))) as [|u r] eqn:Hg.
    + apply inv_update; auto. apply ok_by_email. exact Hin.
    + apply inv_update; auto. apply ok_finished; [reflexivity|].
      apply Hlinked. apply Exists_exists. exists u. split.
      * assert (Hu : u ∈ filter (has_google_id (sub i)) (users (world s)))
          by (rewrite Hg; left).
        apply list_elem_of_filter in Hu. tauto.
      * apply Exists_exists. exists i. split; [exact Hin|].
        assert (Hu : u ∈ filter (has_google_id (sub i)) (users (world s)))
          by (rewrite Hg; left).
        apply list_elem_of_filter in Hu. tauto.
  - (* at the lookup by email *)
    rewrite step_by_email, exec_query_up by assumption. cbn [exec_statement].
    assert (Hei : g_email i = e)
      by (exact (proj1 (Forall_forall _ _) same_email i Hin)).
    rewrite Hei.
    destruct (filter (has_email e) (users (world s))) as [|u r] eqn:He.
    + apply inv_update; auto. apply ok_create. exact Hin.
    + apply inv_update; auto. apply ok_link; [exact Hin|].
      exact (filter_cons_Exists (has_email e) _ _ _ He).
  - (* at the update *)
    rewrite step_link, exec_query_up by assumption. cbn [exec_statement].
    destruct (_ && _).
    + apply inv_update; auto. apply ok_finished; [reflexivity|exact Hex].
    + apply inv_update; cbn [users set_users outages]; auto.
      * unfold accounts_with_email. cbn [users set_users].
        rewrite filter_email_link, length_fmap. exact Hone.
      * intros _. apply Exists_email_link. exact Hex.
      * intros _. apply Exists_email_link. exact Hex.
      * apply ok_finished; [reflexivity|].
        cbn [users set_users]. apply Exists_email_link. exact Hex.
  - (* at the insert *)
    rewrite step_create, exec_query_up by assumption. cbn [exec_statement].
    assert (Hei : g_email i = e)
      by (exact (proj1 (Forall_forall _ _) same_email i Hin)).
    rewrite Hei, email_is_unique. cbn [andb].
    destruct (bool_decide (Exists (has_email e) (users (world s)))) eqn:Hdup.
    + apply bool_decide_eq_true_1 in Hdup.
      apply inv_update; auto. apply ok_finished; [reflexivity|exact Hdup].
    + apply bool_decide_eq_false_1 in Hdup.
      destruct (unique_google_id sch
                && bool_decide (Exists (has_google_id (sub i)) (users (world s))))
        eqn:Hgdup.
      * apply andb_true_iff in Hgdup as [_ Hgdup].
        apply bool_decide_eq_true_1 in Hgdup.
        apply inv_update; auto. apply ok_finished; [reflexivity|].
        cbn [users bump_id]. apply Hlinked.
        eapply Exists_impl; [exact Hgdup|].
        intros u Hu. apply Exists_exists. exists i. split; assumption.
      * assert (Hnew : Exists (has_email e)
                         (users (world s)
                          ++ [new_google_user (next_id (world s)) (g_name i) e (sub i)])).
        { apply Exists_app. right. constructor. reflexivity. }
        apply inv_update; cbn [users set_users bump_id outages]; auto.
        -- unfold accounts_with_email. cbn [users set_users bump_id].
           rewrite filter_app, length_app.
           assert (Hnone : filter (has_email e) (users (world s)) = []).
           { destruct (filter (has_email e) (users (world s))) as [|u r] eqn:He;
               [reflexivity|].
             exfalso. apply Hdup.
             exact (filter_cons_Exists (has_email e) _ _ _ He). }
           rewrite Hnone. rewrite filter_cons_True by reflexivity. reflexivity.
        -- apply ok_finished; [reflexivity|]. exact Hnew.
  - (* finished *)
    rewrite step_finished by assumption.
    rewrite list_insert_id by assumption.
    destruct s; exact Hinv.
Qed.

Lemma run_schedule_inv (sched : list nat) (s : System (option User)) :
  resolvers_inv e identities s ->
  resolvers_inv e identities (run_schedule sch idp sched s).
Proof.
  revert s. induction sched as [|k sched IH]; intros s Hinv; [exact Hinv|].
  cbn [run_schedule fold_left]. apply IH. apply sys_step_inv. exact Hinv.
Qed.

Lemma resolver_system_inv (w : World) :
  outages w = [] ->
  filter (has_email e) (users w) = [] ->
  Forall (fun i => filter (has_google_id (sub i)) (users w) = []) identities ->
  resolvers_inv e identities (resolver_system w identities).
Proof.
  intros Hup Hnone Hfresh. constructor; cbn [resolver_system world procs].
  - exact Hup.
  - unfold accounts_with_email. rewrite Hnone. cbn. lia.
  - intros Hl. exfalso. apply Exists_exists in Hl as (u & Hu & Hl).
    apply Exists_exists in Hl as (i & Hi & Hg).
    pose proof (proj1 (Forall_forall _ _) Hfresh i Hi) as Hf.
    exact (filter_nil_not_elem_of _ _ u Hf Hg Hu).
  - apply Forall_fmap. apply Forall_forall. intros i Hi.
    cbn. apply ok_start. exact Hi.
  - apply length_fmap.
Qed.

Lemma finished_proc_ok (w : World) (p : Prog (option User)) :
  proc_ok e identities w p -> finished p = true ->
  Exists (has_email e) (users w).
Proof.
  intros Hok Hfin. destruct Hok; try discriminate Hfin; assumption.
Qed.

Lemma Exists_email_counted (w : World) :
  Exists (has_email e) (users w) -> (1 <= accounts_with_email e w)%nat.
Proof.
  intros Hex. unfold accounts_with_email.
  destruct (filter (has_email e) (users w)) as [|u r] eqn:He; [|cbn; lia].
  exfalso. exact (filter_nil_not_Exists (has_email e) _ He Hex).
Qed.

(** C9 (as the code and the schema have it): on a repository that
    enforces the uniqueness of emails and stays reachable, for an email no
    account has and identities with that email whose external ids no
    account carries, however the resolvers of these identities are
    interleaved at their queries, there is never more than one account
    with that email, and once all resolvers have finished there is exactly
    one. *)
Theorem concurrent_resolve_one_account (w : World) (sched : list nat) :
  outages w = [] ->
  identities <> [] ->
  filter (has_email e) (users w) = [] ->
  Forall (fun i => filter (has_google_id (sub i)) (users w) = []) identities ->
  let s := run_schedule sch idp sched (resolver_system w identities) in
  if all_finished s
  then accounts_with_email e (world s) = 1%nat
  else (accounts_with_email e (world s) <= 1)%nat.
Proof.
  intros Hup Hne Hnone Hfresh s.
  assert (Hinv : resolvers_inv e identities s)
    by (apply run_schedule_inv, resolver_system_inv; assumption).
  destruct Hinv as [_ Hone _ Hprocs Hcount].
  destruct (all_finished s) eqn:Hall; [|exact Hone].
  enough (1 <= accounts_with_email e (world s))%nat by lia.
  apply Exists_email_counted.
  unfold all_finished in Hall.
  destruct (procs s) as [|p ps] eqn:Hps.
  - destruct identities; [contradiction|discriminate Hcount].
  - apply Forall_cons in Hprocs as [Hok _].
    cbn [forallb] in Hall. apply andb_true_iff in Hall as [Hfin _].
    exact (finished_proc_ok _ _ Hok Hfin).
Qed.

End Concurrent.

(** ** The theorems at sample data *)


(** The guard tells a missing token from a forged one. *)
Lemma guard_failures_differ :
  let absent :=
    run sample_schema sample_idp
      (verifyAccessToken sample_hmac sample_env (without_access_token sample_request))
      sample_world in
  let forged :=
    run sample_schema sample_idp
      (verifyAccessToken sample_hmac sample_env
         (with_access_token (Malformed "forged") sample_request))
      sample_world in
  absent = (inr (Responded (json 401 "Unauthorized")), sample_world)
  /\ forged = (inr (Responded (json 401 "Invalid or expired token")), sample_world)
  /\ absent <> forged.
Proof. repeat split. discriminate. Qed.

Lemma refresh_account_missing_witness :
  exists rt : JwtString,
    run sample_schema sample_idp
      (createRefreshToken sample_hmac sample_env (Some deleted_account)) sample_world
    = (inr rt, sample_world)
    /\ run sample_schema sample_idp
         (refresh_token sample_hmac sample_env (with_refresh_token rt sample_request))
         (later 60000 sample_world)
       = (inr (json 401 "Invalid or expired refresh token"), later 60000 sample_world)
    /\ run sample_schema sample_idp
         (refresh_token sample_hmac sample_env
            (with_refresh_token (Malformed "garbage") sample_request))
         (later 60000 sample_world)
       = (inr (json 401 "Invalid or expired refresh token"), later 60000 sample_world).
Proof.
  apply (refresh_account_missing sample_hmac sample_env sample_schema sample_idp
           deleted_account sample_request sample_world (later 60000 sample_world)).
  - reflexivity.
  - vm_compute. reflexivity.
  - reflexivity.
Defined.

Lemma resolve_external_precedence_witness :
  exists returned : User,
    run sample_schema sample_idp (resolve_external alice_identity) sample_world
    = (inr (Some returned),
       {| users := [{| user_id := 1; user_name := "Alice";
                       user_email := "a@x.com";
                       password_hash := Some "hash:pw1";
                       google_id := Some "google-1" |}; gina];
          next_id := 3; now := 1700000000000; outages := [] |})
    /\ user_id returned = 1
    /\ user_name returned = "Alice"
    /\ user_email returned = "a@x.com"
    /\ password_hash returned = Some "hash:pw1"
    /\ (returned = (resolve_external_spec alice_identity sample_world).1
        \/ (list_find (fun account => google_id account = Some "google-1")
                      (users sample_world) = None
            /\ exists i,
                 list_find (fun account => user_email account = "a@x.com")
                           (users sample_world) = Some (i, returned)
                 /\ google_id (resolve_external_spec alice_identity sample_world).1
                    = Some "google-1")).
Proof.
  apply (resolve_external_precedence sample_schema sample_idp alice_identity sample_world).
  - reflexivity.
  - apply (bool_decide_unpack _). vm_compute. exact I.
Defined.

Lemma refresh_reads_current_account_witness :
  exists (rt at_ : JwtString) (rp p : Payload) (sig : string),
    run sample_schema sample_idp
      (createRefreshToken sample_hmac sample_env (Some alice)) sample_world
    = (inr rt, sample_world)
    /\ rt = Jws rp sig
    /\ claims_of rp = {| c_id := 1; c_email := None; c_name := None |}
    /\ run sample_schema sample_idp
         (refresh_token sample_hmac sample_env (with_refresh_token rt sample_request))
         renamed_world
       = (inr {| status := 200; message := "Access token refreshed";
                 user := None;
                 set_cookies :=
                   [{| cookie_name := "accessToken"; cookie_value := at_;
                       cookie_options :=
                         {| httpOnly := true; secure := false;
                            sameSite := "Lax"; maxAge := 900000 |} |}] |},
          renamed_world)
    /\ at_ = Jws p (sample_hmac "access-secret" p)
    /\ p = {| p_id := 1; p_email := Some "a@x.com";
              p_name := Some "Alice Cooper"; iat := 1700000600;
              exp := Some 1700001500 |}
    /\ run sample_schema sample_idp
         (verifyAccessToken sample_hmac sample_env (with_access_token at_ sample_request))
         renamed_world
       = (inr (Next p), renamed_world)
    /\ claims_of p = {| c_id := 1; c_email := Some "a@x.com";
                        c_name := Some "Alice Cooper" |}.
Proof.
  apply (refresh_reads_current_account sample_hmac sample_env sample_schema sample_idp
           alice alice_renamed [] sample_request sample_world renamed_world).
  - reflexivity.
  - vm_compute. reflexivity.
  - reflexivity.
Defined.

Lemma resolve_external_twice_witness :
  exists (a1 a2 : User) (w1 : World),
    run sample_schema sample_idp (resolve_external alice_identity) sample_world
    = (inr (Some a1), w1)
    /\ run sample_schema sample_idp (resolve_external alice_identity) w1
       = (inr (Some a2), w1)
    /\ (a2 = a1 \/ a2 = set_google_id (sub alice_identity) a1)
    /\ user_id a1 = user_id a2
    /\ summary a1 = summary a2
    /\ length (users w1) = length (users sample_world)
    /\ length (filter (has_email (g_email alice_identity)) (users w1))
       = length (filter (has_email (g_email alice_identity)) (users sample_world)).
Proof.
  apply (resolve_external_twice sample_schema sample_idp alice_identity sample_world).
  - reflexivity.
  - apply (bool_decide_unpack _). vm_compute. exact I.
  - apply (bool_decide_unpack _). vm_compute. exact I.
Defined.

Lemma signin_account_without_password_hash_witness :
  run sample_schema sample_idp
    (signin sample_hmac sample_bcrypt sample_env
       (signin_request (Some "g@x.com") (Some "guess") sample_request)) sample_world
  = (inr (json 500 "Server error"), sample_world)
  /\ run sample_schema sample_idp
       (signin sample_hmac sample_bcrypt sample_env
          (signin_request (Some "nobody@x.com") (Some "guess") sample_request))
       sample_world
     = (inr (json 400 "Invalid email or password"), sample_world).
Proof.
  apply (signin_account_without_password_hash sample_hmac sample_bcrypt sample_env
           sample_schema sample_idp "g@x.com" "nobody@x.com" (Some "guess")
           gina [] sample_request sample_world); reflexivity.
Defined.

Lemma concurrent_resolve_one_account_witness :
  let s := run_schedule sample_schema sample_idp lockstep two_newcomers in
  if all_finished s
  then accounts_with_email "n@x.com" (world s) = 1%nat
  else (accounts_with_email "n@x.com" (world s) <= 1)%nat.
Proof.
  apply (concurrent_resolve_one_account sample_schema sample_idp "n@x.com"
           [newcomer_identity; newcomer_identity]).
  - reflexivity.
  - repeat constructor.
  - reflexivity.
  - discriminate.
  - reflexivity.
  - repeat constructor.
Defined.

(** One call, for an email no account has, by an identity whose external
    id an account already carries: the call completes by the first branch
    and no account has that email. *)
Lemma resolve_linked_identity_creates_nothing :
  let s := run_schedule sample_schema sample_idp [0%nat]
             (resolver_system sample_world [gina_moved_identity]) in
  filter (has_email (g_email gina_moved_identity)) (users sample_world) = []
  /\ all_finished s = true
  /\ procs s = [Ret (Some gina)]
  /\ accounts_with_email (g_email gina_moved_identity) (world s) = 0%nat.
Proof. repeat split. Qed.

(** Wrong password and unknown email are answered alike for an account
    with a password hash. *)
Example signin_alice_wrong_password :
  run sample_schema sample_idp
    (signin sample_hmac sample_bcrypt sample_env
       (signin_request (Some "a@x.com") (Some "wrong") sample_request)) sample_world
  = run sample_schema sample_idp
      (signin sample_hmac sample_bcrypt sample_env
         (signin_request (Some "nobody@x.com") (Some "wrong") sample_request))
      sample_world.
Proof. reflexivity. Qed.

(** Without a uniqueness constraint on emails the lockstep schedule leaves
    two accounts for the newcomer's email: both resolvers insert. *)
Example lockstep_duplicates_without_constraint :
  let s := run_schedule bare_schema sample_idp lockstep two_newcomers in
  all_finished s = true
  /\ accounts_with_email "n@x.com" (world s) = 2%nat.
Proof. split; reflexivity. Qed.

(** With the constraint both resolvers still reach the insert; the second
    insert is rejected and its resolver throws. *)
Example lockstep_second_insert_rejected :
  let s := run_schedule sample_schema sample_idp lockstep two_newcomers in
  procs s = [Ret (Some (new_google_user 3 "Nora" "n@x.com" "google-3"));
             Throw unique_violation]
  /\ accounts_with_email "n@x.com" (world s) = 1%nat.
Proof. split; reflexivity. Qed.

(** A federated sign-in while the repository is unreachable is answered
    like a rejected assertion. *)
Example google_auth_outage_as_rejection :
  fst (run sample_schema sample_idp
         (google_auth sample_hmac sample_env
            (google_request (Some "assertion-alice") sample_request))
         (set_outages [true] sample_world))
  = fst (run sample_schema sample_idp
           (google_auth sample_hmac sample_env
              (google_request (Some "not-an-assertion") sample_request))
           sample_world).
Proof. reflexivity. Qed.

(** The example of the specification: the federated sign-in of Alice links
    her account and creates none. *)
Example google_auth_links_alice :
  exists r w,
    run sample_schema sample_idp
      (google_auth sample_hmac sample_env
         (google_request (Some "assertion-alice") sample_request)) sample_world
    = (inr r, w)
    /\ status r = 200
    /\ user r = Some (summary alice)
    /\ users w = [set_google_id "google-1" alice; gina].
Proof. eexists _, _. repeat split. Qed.

(** One call that meets an unreachable repository completes without
    creating the account. *)
Example resolve_outage_creates_nothing :
  let s := run_schedule sample_schema sample_idp [0%nat]
             (resolver_system (set_outages [true] sample_world) [newcomer_identity]) in
  all_finished s = true
  /\ accounts_with_email "n@x.com" (world s) = 0%nat.
Proof. split; reflexivity. Qed.

(** Two sign-ins of the newcomer in lockstep, on the schema with the
    constraints: the first is answered 200, the second, whose insert is
    rejected, 401 "Google authentication failed". *)
Example google_auth_race_loser_rejected :
  let s := run_schedule sample_schema sample_idp
             (lockstep ++ lockstep) two_google_sign_ins in
  (outcome <$> procs s)
  = [Some (inr {| status := 200; message := "Google login successful";
                  user := Some {| s_id := 3; s_name := "Nora"; s_email := "n@x.com" |};
                  set_cookies :=
                    [access_cookie sample_env
                       (minted_access sample_hmac sample_env
                          (new_google_user 3 "Nora" "n@x.com" "google-3")
                          (now sample_world));
                     refresh_cookie sample_env
                       (minted_refresh sample_hmac sample_env
                          (new_google_user 3 "Nora" "n@x.com" "google-3")
                          (now sample_world))] |});
     Some (inr (json 401 "Google authentication failed"))]
  /\ accounts_with_email "n@x.com" (world s) = 1%nat.
Proof. split; reflexivity. Qed.

Lemma google_auth_failures_collapse_witness :
  run sample_schema sample_idp
    (google_auth sample_hmac sample_env
       (google_request (Some "not-an-assertion") sample_request))
    (set_outages [true] sample_world)
  = (inr (json 401 "Google authentication failed"), set_outages [true] sample_world).
Proof.
  exact (proj1 (google_auth_failures_collapse sample_hmac sample_env sample_schema
                  sample_idp
                  (google_request (Some "not-an-assertion") sample_request)
                  {| token := Some "not-an-assertion"; email := None;
                     password := None |}
                  (set_outages [true] sample_world) eq_refl)).
Defined.

(** A federated sign-in request without body is not answered
    401 "Google authentication failed": the handler throws at its first
    line, before its [try]. *)
Lemma google_auth_without_body_throws :
  run sample_schema sample_idp
    (google_auth sample_hmac sample_env bodyless_request) sample_world
  = (inl (TypeError
            "Cannot destructure property 'token' of 'req.body' as it is undefined."),
     sample_world)
  /\ run sample_schema sample_idp
       (google_auth sample_hmac sample_env bodyless_request) sample_world
     <> (inr (json 401 "Google authentication failed"), sample_world).
Proof. split; [reflexivity|discriminate]. Qed.

(** ** HMAC-SHA256 at sample data *)

(** The digest of "abc", as the standard gives it. *)
Example sha256_abc :
  sha256 (bytes_of_string "abc")
  = [186; 120; 22; 191; 143; 1; 207; 234; 65; 65; 64; 222; 93; 174; 34; 35;
     176; 3; 97; 163; 150; 23; 122; 156; 180; 16; 255; 97; 242; 0; 21; 173].
Proof. vm_compute. reflexivity. Qed.

(** The access token of Alice under the sample access secret, as
    [jwt.sign] writes it. *)
Example hs256_alice_token :
  minted_access hmac_sha256 sample_env alice 1700000000000
  = Jws (access_payload alice 1700000000000)
        "fdMAlLwOzdr6GudRZkLR8BatW8X-hQeIyhudCOu5v-c"
  /\ signing_input (access_payload alice 1700000000000)
     = "eyJhbGciOiJIUzI1NiIsInR5cCI6IkpXVCJ9.eyJpZCI6MSwiZW1haWwiOiJhQHguY29tIiwibmFtZSI6IkFsaWNlIiwiaWF0IjoxNzAwMDAwMDAwLCJleHAiOjE3MDAwMDA5MDB9".
Proof. split; vm_compute; reflexivity. Qed.

(** With HMAC-SHA256 and the sample secrets the two domains are apart for
    Alice's tokens. *)
Example hs256_sample_secrets_apart :
  run sample_schema sample_idp
    (verifyAccessToken hmac_sha256 sample_env
       (with_access_token
          (minted_refresh hmac_sha256 sample_env alice (now sample_world))
          sample_request)) sample_world
  = (inr (Responded (json 401 "Invalid or expired token")), sample_world).
Proof. vm_compute. reflexivity. Qed.

Lemma digest_refresh_secret_is_digest :
  digest_refresh_secret
  = string_of_bytes (sha256 (bytes_of_string long_access_secret)).
Proof. vm_compute. reflexivity. Qed.



(** * Further properties of the routes *)

(** ** The access guard *)

Section Guard.
Variable hmac : string -> Payload -> string.
Variable env : Env.
Variable sch : Schema.
Variable idp : option string -> string -> Exn + option GooglePayload.

(** What [jwt.verify] returns, it read from a token signed with the
    secret it was given and not yet expired. *)
Lemma jwt_verify_sound (t : option JwtString) (secret : string) (w : World)
  (p : Payload) :
  (run sch idp (jwt_verify hmac t secret) w).1 = inr p ->
  t = Some (Jws p (hmac secret p)) /\ alive p w.
Proof.
  unfold jwt_verify. cbn [run]. destruct t as [[raw|q s]|]; try discriminate.
  destruct (String.eqb_spec s (hmac secret q)) as [->|_]; [|discriminate].
  cbn [negb]. unfold alive. destruct (exp q) as [e|] eqn:He.
  - rewrite clock_reached.
    destruct (Z.geb_spec (now w) (e * 1000)) as [|Hlt]; [discriminate|].
    cbn. intros [= <-]. rewrite He. split; [reflexivity|lia].
  - cbn. intros [= <-]. rewrite He. split; [reflexivity|exact I].
Qed.

(** [jwt.verify] depends on the instant only through the expiry. *)
Lemma jwt_verify_earlier (t : option JwtString) (secret : string)
  (w1 w2 : World) (p : Payload) :
  now w1 <= now w2 ->
  (run sch idp (jwt_verify hmac t secret) w2).1 = inr p ->
  (run sch idp (jwt_verify hmac t secret) w1).1 = inr p.
Proof.
  intros Hle. unfold jwt_verify. cbn [run].
  destruct t as [[raw|q s]|]; try discriminate.
  destruct (negb (String.eqb s (hmac secret q))); [discriminate|].
  destruct (exp q) as [e|]; [|exact (fun H => H)].
  rewrite !clock_reached.
  destruct (Z.geb_spec (now w2) (e * 1000)) as [|H2]; [discriminate|].
  destruct (Z.geb_spec (now w1) (e * 1000)) as [H1|_]; [lia|].
  exact (fun H => H).
Qed.

(** X1: the guard lets a request through only if its cookie is a token
    signed with the access secret and still inside its lifetime, and
    [req.user] is then the payload of that very token. *)
Theorem guard_accepts_only_signed (req : Request) (w : World) :
  match run sch idp (verifyAccessToken hmac env req) w with
  | (inr (Next p), _) =>
      accessToken (cookies req) = Some (Jws p (hmac (JWT_SECRET env) p))
      /\ alive p w
  | _ => True
  end.
Proof.
  rewrite run_verifyAccessToken.
  destruct (falsy (accessToken (cookies req))); [exact I|].
  pose proof (jwt_verify_sound (accessToken (cookies req)) (JWT_SECRET env) w) as Hs.
  destruct (run sch idp (jwt_verify hmac _ _) w) as [[e|p] w']; [exact I|].
  apply Hs. reflexivity.
Qed.

(** X3: expiry is final.  A cookie the guard lets through at some instant
    it lets through, with the same payload, at every earlier instant; so
    once a cookie has been turned away for its age it is turned away ever
    after. *)
Theorem guard_acceptance_is_downward_closed
  (req : Request) (w1 w2 : World) (p : Payload) :
  now w1 <= now w2 ->
  (run sch idp (verifyAccessToken hmac env req) w2).1 = inr (Next p) ->
  (run sch idp (verifyAccessToken hmac env req) w1).1 = inr (Next p).
Proof.
  intros Hle. rewrite !run_verifyAccessToken.
  destruct (falsy (accessToken (cookies req))); [discriminate|].
  pose proof (jwt_verify_earlier (accessToken (cookies req)) (JWT_SECRET env)
                w1 w2) as He.
  destruct (run sch idp (jwt_verify hmac _ _) w2) as [[e2|p2] w2'];
    [discriminate|].
  cbn [fst]. intros [= ->]. specialize (He p Hle eq_refl).
  destruct (run sch idp (jwt_verify hmac _ _) w1) as [[e1|p1] w1'];
    cbn [fst] in He; [discriminate|].
  injection He as ->. reflexivity.
Qed.

End Guard.

(** ** The refresh route *)

Section Refresh.
Variable hmac : string -> Payload -> string.
Variable env : Env.
Variable sch : Schema.
Variable idp : option string -> string -> Exn + option GooglePayload.

Lemma exec_statement_select (q : Query) (w : World) :
  is_select q = true -> (exec_statement sch q w).2 = w.
Proof. destruct q as [[e|]|g|i|n e g|g i]; try discriminate; reflexivity. Qed.

(** A lookup leaves the repository as it is, reachable or not. *)
Lemma exec_query_select (q : Query) (w : World) :
  is_select q = true -> same_repository w (exec_query sch q w).2.
Proof.
  intros Hq. unfold exec_query.
  destruct (outages w) as [|[|] o]; rewrite ?exec_statement_select by assumption;
    split; reflexivity.
Qed.

(** X4: a refresh token minted at instant [now w0] is honoured by the
    refresh route at every instant strictly before seven days after the
    second of minting and at no instant from then on: with the repository
    reachable and the account still there, the answer is 200 with a fresh
    access token before that instant and 401 from it on. *)
Theorem refresh_token_lifetime
  (u0 u1 : User) (rest : list User) (req : Request) (w0 w1 : World) :
  outages w1 = [] ->
  filter (has_id (user_id u0)) (users w1) = u1 :: rest ->
  run sch idp
    (refresh_token hmac env
       (with_refresh_token (minted_refresh hmac env u0 (now w0)) req)) w1
  = if now w1 <? (clock (now w0) + 7 * 24 * 60 * 60) * 1000
    then (inr {| status := 200; message := "Access token refreshed";
                 user := None;
                 set_cookies :=
                   [access_cookie env (minted_access hmac env u1 (now w1))] |},
          w1)
    else (inr (json 401 "Invalid or expired refresh token"), w1).
Proof.
  intros Hup Hrows.
  destruct (Z.ltb_spec (now w1) ((clock (now w0) + 7 * 24 * 60 * 60) * 1000))
    as [Hlt|Hge].
  - rewrite run_refresh_token_minted by assumption. rewrite Hrows. reflexivity.
  - unfold minted_refresh, refresh_token.
    cbn [with_refresh_token cookies refreshToken falsy].
    rewrite run_try_catch, run_mbind, run_jwt_verify_signed.
    cbn [exp refresh_payload].
    replace (now w1 >=? (clock (now w0) + 7 * 24 * 60 * 60) * 1000) with true
      by (symmetry; rewrite Z.geb_leb; apply Z.leb_le; exact Hge).
    reflexivity.
Qed.

(** X5: the refresh route never throws and never writes: whatever the
    request and the world, it answers either 200 with one cookie, the
    access token, or 401 with none, and it leaves every account and the id
    sequence as they were.  It never sets a refresh token: the session
    ends with the refresh token of the sign-in. *)
Theorem refresh_token_reads_only (req : Request) (w : World) :
  match run sch idp (refresh_token hmac env req) w with
  | (inr r, w') =>
      same_repository w w'
      /\ ((status r = 200
           /\ exists t, set_cookies r = [access_cookie env t])
          \/ (status r = 401 /\ set_cookies r = []))
  | (inl _, _) => False
  end.
Proof.
  unfold refresh_token.
  destruct (falsy (refreshToken (cookies req))).
  { cbn. split; [split; reflexivity|]. right. split; reflexivity. }
  rewrite run_try_catch, run_mbind.
  pose proof (jwt_verify_keeps_world hmac sch idp (refreshToken (cookies req))
                (REFRESH_TOKEN_SECRET env) w) as Hw.
  destruct (run sch idp (jwt_verify hmac _ _) w) as [[e|p] w1]; cbn [snd] in Hw;
    subst w1.
  { cbn. split; [split; reflexivity|]. right. split; reflexivity. }
  rewrite run_mbind, run_query.
  pose proof (exec_query_select (SelectById (p_id p)) w eq_refl) as Hsame.
  destruct (exec_query sch (SelectById (p_id p)) w) as [[e|rows] w2];
    cbn [snd] in Hsame.
  { cbn. split; [exact Hsame|]. right. split; reflexivity. }
  destruct rows as [|u rows]; cbn [head].
  - cbn. split; [exact Hsame|]. right. split; reflexivity.
  - rewrite run_mbind, run_createAccessToken. cbn [run].
    split; [exact Hsame|]. left. split; [reflexivity|].
    eexists. reflexivity.
Qed.

End Refresh.

(** ** The signin route *)

Section Signin.
Variable hmac : string -> Payload -> string.
Variable bcrypt_check : string -> string -> bool.
Variable env : Env.
Variable sch : Schema.
Variable idp : option string -> string -> Exn + option GooglePayload.

Lemma exec_statement_now (q : Query) (w : World) :
  now (exec_statement sch q w).2 = now w.
Proof.
  destruct q as [[e|]|g|i|n e g|g i]; cbn [exec_statement]; try reflexivity.
  - destruct (_ && _); [reflexivity|]. destruct (_ && _); reflexivity.
  - destruct (_ && _); reflexivity.
Qed.

Lemma exec_query_now (q : Query) (w : World) :
  now (exec_query sch q w).2 = now w.
Proof.
  unfold exec_query.
  destruct (outages w) as [|[|] o]; rewrite ?exec_statement_now; reflexivity.
Qed.

(** The rows a lookup returns are rows of the table. *)
Lemma exec_query_select_rows (q : Query) (w w' : World) (rows : list User) :
  is_select q = true ->
  exec_query sch q w = (inr rows, w') ->
  Forall (fun u => u ∈ users w) rows.
Proof.
  intros Hq. unfold exec_query.
  assert (Hst : forall v, users v = users w ->
                  exec_statement sch q v = (inr rows, w') ->
                  Forall (fun u => u ∈ users w) rows).
  { intros v Hv. destruct q as [[e|]|g|i|n e g|g i]; try discriminate;
      cbn [exec_statement]; intros [= <- _]; try constructor;
      rewrite Hv; apply Forall_forall; intros u Hu;
      apply list_elem_of_filter in Hu; tauto. }
  destruct (outages w) as [|[|] o]; [apply Hst; reflexivity|discriminate|].
  apply Hst. reflexivity.
Qed.

(** The answers of the signin route to a request that carries a body, for
    every world. *)
Lemma signin_shape (c : Cookies) (b : Body) (w : World) :
  exists r w',
    run sch idp (signin hmac bcrypt_check env {| cookies := c; body := Some b |}) w
    = (inr r, w')
    /\ same_repository w w' /\ now w' = now w
    /\ (r = json 400 "Invalid email or password"
        \/ r = json 500 "Server error"
        \/ exists u, u ∈ users w /\ r = login_successful hmac env u (now w)).
Proof.
  unfold signin. cbn [body]. rewrite run_try_catch, run_mbind, run_query.
  pose proof (exec_query_select sch (SelectByEmail (email b)) w eq_refl)
    as Hsame.
  pose proof (exec_query_now (SelectByEmail (email b)) w) as Hnow.
  pose proof (exec_query_select_rows (SelectByEmail (email b)) w) as Hrows.
  destruct (exec_query sch (SelectByEmail (email b)) w) as [[e|rows] w1];
    cbn [snd] in Hsame, Hnow.
  { eexists _, _. split; [reflexivity|]. auto. }
  specialize (Hrows w1 rows eq_refl eq_refl).
  destruct rows as [|u rows].
  { eexists _, _. split; [reflexivity|]. auto. }
  apply Forall_cons in Hrows as [Hu _].
  rewrite run_mbind.
  destruct (bcrypt_compare bcrypt_check (password b) (password_hash u))
    as [e|[|]]; cbn [await run negb].
  - eexists _, _. split; [reflexivity|]. auto.
  - rewrite run_mbind, run_createAccessToken, run_mbind, run_createRefreshToken.
    cbn [run]. eexists _, _. split; [reflexivity|].
    split; [exact Hsame|]. split; [exact Hnow|].
    right. right. exists u. split; [exact Hu|]. rewrite Hnow. reflexivity.
  - eexists _, _. split; [reflexivity|]. auto.
Qed.

(** X6: signin never writes, and throws only at its first line: a
    request that carries a body is answered 400 "Invalid email or
    password", 500 "Server error", or the 200 of some account of the
    table; a request without body makes the handler throw before its
    [try] and before any query.  In every case the accounts and the id
    sequence are left as they were. *)
Theorem signin_reads_only (req : Request) (w : World) :
  match run sch idp (signin hmac bcrypt_check env req) w with
  | (inr r, w') =>
      is_Some (body req)
      /\ same_repository w w'
      /\ (r = json 400 "Invalid email or password"
          \/ r = json 500 "Server error"
          \/ exists u, u ∈ users w /\ r = login_successful hmac env u (now w))
  | (inl ex, w') =>
      body req = None /\ ex = destructure_undefined "email" /\ w' = w
  end.
Proof.
  destruct req as [c [b|]].
  - destruct (signin_shape c b w) as (r & w' & -> & Hsame & _ & Hr).
    split; [eexists; reflexivity|]. split; assumption.
  - cbn. auto.
Qed.


(** X8: a signin request without a password is answered
    500 "Server error" when the email is registered and
    400 "Invalid email or password" when it is not. *)
Theorem signin_without_password
  (e e' : string) (u : User) (rest : list User) (req : Request) (w : World) :
  outages w = [] ->
  filter (has_email e) (users w) = u :: rest ->
  filter (has_email e') (users w) = [] ->
  run sch idp (signin hmac bcrypt_check env (signin_request (Some e) None req)) w
  = (inr (json 500 "Server error"), w)
  /\ run sch idp (signin hmac bcrypt_check env (signin_request (Some e') None req)) w
     = (inr (json 400 "Invalid email or password"), w).
Proof.
  intros Hup He He'. unfold signin_request. rewrite !run_signin by assumption.
  cbn [email password]. rewrite He, He'.
  split; reflexivity.
Qed.

End Signin.

(** ** The repository under the Google route *)

Section Keys.
Variable sch : Schema.

Lemma set_outages_same (w : World) : set_outages (outages w) w = w.
Proof. destruct w. reflexivity. Qed.

(** A query is rejected by an unreachable repository, leaving everything
    but the outages as it was, or it is its statement run on the same
    accounts. *)
Lemma exec_query_as_statement (q : Query) (w : World) :
  (exists o, outages w = true :: o
             /\ exec_query sch q w
                = (inl (DatabaseError "connection refused"), set_outages o w))
  \/ (exists o, exec_query sch q w = exec_statement sch q (set_outages o w)).
Proof.
  unfold exec_query. destruct (outages w) as [|[|] o] eqn:Ho.
  - right. exists []. rewrite <- Ho, set_outages_same. reflexivity.
  - left. exists o. split; reflexivity.
  - right. exists o. reflexivity.
Qed.









End Keys.

Section GoogleRepository.
Variable hmac : string -> Payload -> string.
Variable env : Env.
Variable sch : Schema.
Variable idp : option string -> string -> Exn + option GooglePayload.

(** What the resolver leaves behind, for every world: the repository as
    it was, or with one account linked after both lookups, or with one
    account appended after both lookups came back empty. *)
Lemma resolve_external_shape (identity : GooglePayload) (w : World) :
  exists r w',
    run sch idp (resolve_external identity) w = (r, w')
    /\ (same_repository w w'
        \/ (filter (has_google_id (sub identity)) (users w) = []
            /\ (exists u rest,
                   filter (has_email (g_email identity)) (users w) = u :: rest
                   /\ users w' = link_google_id (sub identity) (user_id u) <$> users w)
            /\ next_id w' = next_id w)
        \/ (filter (has_google_id (sub identity)) (users w) = []
            /\ filter (has_email (g_email identity)) (users w) = []
            /\ users w'
               = users w ++ [new_google_user (next_id w) (g_name identity)
                               (g_email identity) (sub identity)]
            /\ next_id w' = next_id w + 1)).
Proof.
  unfold resolve_external. rewrite run_mbind, run_query.
  destruct (exec_query_as_statement sch (SelectByGoogleId (sub identity)) w)
    as [(o & Ho & ->)|(o & ->)].
  { eexists _, _. split; [reflexivity|]. left. split; reflexivity. }
  cbn [exec_statement users set_outages].
  destruct (filter (has_google_id (sub identity)) (users w)) as [|u r] eqn:Hg.
  2:{ eexists _, _. split; [reflexivity|]. left. split; reflexivity. }
  rewrite run_mbind, run_query.
  destruct (exec_query_as_statement sch (SelectByEmail (Some (g_email identity)))
              (set_outages o w)) as [(o2 & Ho2 & ->)|(o2 & ->)].
  { eexists _, _. split; [reflexivity|]. left. split; reflexivity. }
  cbn [exec_statement users set_outages].
  destruct (filter (has_email (g_email identity)) (users w)) as [|u r] eqn:He.
  - rewrite run_mbind, run_query.
    destruct (exec_query_as_statement sch
                (InsertGoogle (g_name identity) (g_email identity) (sub identity))
                (set_outages o2 (set_outages o w))) as [(o3 & Ho3 & ->)|(o3 & ->)].
    { eexists _, _. split; [reflexivity|]. left. split; reflexivity. }
    cbn [exec_statement users set_outages next_id].
    rewrite (bool_decide_eq_false_2 (Exists (has_email _) _))
      by exact (filter_nil_not_Exists (has_email _) _ He).
    rewrite (bool_decide_eq_false_2 (Exists (has_google_id _) _))
      by exact (filter_nil_not_Exists (has_google_id _) _ Hg).
    rewrite !andb_false_r.
    eexists _, _. split; [reflexivity|]. right. right.
    repeat split; reflexivity.
  - rewrite run_mbind, run_query.
    destruct (exec_query_as_statement sch
                (UpdateGoogleId (sub identity) (user_id u))
                (set_outages o2 (set_outages o w))) as [(o3 & Ho3 & ->)|(o3 & ->)].
    { eexists _, _. split; [reflexivity|]. left. split; reflexivity. }
    cbn [exec_statement users set_outages next_id].
    rewrite (bool_decide_eq_false_2 (Exists (fun u => has_google_id _ u /\ _) _)).
    + rewrite andb_false_r.
      eexists _, _. split; [reflexivity|]. right. left.
      split; [reflexivity|]. split; [|reflexivity].
      exists u, r. split; reflexivity.
    + intros Hex. apply Exists_exists in Hex as (v & Hin & Hv & _).
      exact (filter_nil_not_elem_of _ _ v Hg Hv Hin).
Qed.

(** The world the Google route leaves is the world it found or the world
    its resolver left. *)
Lemma google_auth_world (req : Request) (w : World) :
  (run sch idp (google_auth hmac env req) w).2 = w
  \/ exists payload,
       (run sch idp (google_auth hmac env req) w).2
       = (run sch idp (resolve_external payload) w).2.
Proof.
  destruct req as [c [b|]]; [|left; reflexivity].
  rewrite run_google_auth.
  destruct (idp (token b) (GOOGLE_CLIENT_ID env)) as [e|[payload|]];
    [left; reflexivity| |left; reflexivity].
  right. exists payload.
  destruct (run sch idp (resolve_external payload) w) as [[e|[u|]] w'];
    reflexivity.
Qed.



Lemma forget_link_link (g : string) (i : Z) (l : list User) :
  forget_link <$> (link_google_id g i <$> l) = forget_link <$> l.
Proof.
  rewrite <- list_fmap_compose. apply list_fmap_ext. intros j u _.
  unfold compose, link_google_id. destruct (decide _); reflexivity.
Qed.

Lemma resolve_external_keeps_accounts (identity : GooglePayload) (w : World) :
  accounts_kept w (run sch idp (resolve_external identity) w).2.
Proof.
  destruct (resolve_external_shape identity w)
    as (r & w' & -> & [[Hu _]|[(Hg & (u & rest & He & Hu) & Hn)|(Hg & He & Hu & Hn)]]);
    cbn [snd]; unfold accounts_kept; rewrite Hu.
  - split; [reflexivity|lia].
  - rewrite forget_link_link, length_fmap. split; [reflexivity|lia].
  - rewrite fmap_app, length_app. split; [apply prefix_app_r; reflexivity|].
    cbn. lia.
Qed.

(** X10: the Google route never removes an account and never changes the
    id, name, email or password hash of one: after any request the
    accounts of before are still there, in order, followed by at most one
    new account. *)
Theorem google_auth_keeps_accounts (req : Request) (w : World) :
  accounts_kept w (run sch idp (google_auth hmac env req) w).2.
Proof.
  destruct (google_auth_world req w) as [->|[payload ->]].
  - split; [reflexivity|lia].
  - apply resolve_external_keeps_accounts.
Qed.

(** X11: an identity that no account is linked to and whose email no
    account has, resolved twice in a row against a reachable repository,
    is given one new account: the first call appends it, the second finds
    it by its external id, returns the same account and changes
    nothing. *)
Theorem resolve_new_identity_twice (identity : GooglePayload) (w : World) :
  outages w = [] ->
  filter (has_google_id (sub identity)) (users w) = [] ->
  filter (has_email (g_email identity)) (users w) = [] ->
  exists (a : User) (w1 : World),
    run sch idp (resolve_external identity) w = (inr (Some a), w1)
    /\ run sch idp (resolve_external identity) w1 = (inr (Some a), w1)
    /\ a = new_google_user (next_id w) (g_name identity) (g_email identity)
             (sub identity)
    /\ users w1 = users w ++ [a].
Proof.
  intros Hup Hg He. eexists _, _.
  rewrite run_resolve_external by assumption. rewrite Hg, He.
  split; [reflexivity|]. split; [|split; reflexivity].
  rewrite run_resolve_external by assumption.
  cbn [users set_users bump_id]. rewrite filter_app, Hg.
  rewrite filter_cons_True by reflexivity. reflexivity.
Qed.

End GoogleRepository.

(** ** Concurrent sign-ins for a registered email *)

Section ConcurrentLinking.
Variable sch : Schema.
Variable idp : option string -> string -> Exn + option GooglePayload.
Variable e : string.
Variable identities : list GooglePayload.
Variable w0 : World.
Hypothesis same_email : Forall (fun i => g_email i = e) identities.

Lemma linkers_update (s : System (option User)) (w' : World) (k : nat)
  (p' : Prog (option User)) :
  linkers_inv e identities w0 s ->
  users w' = users (world s) ->
  linker_ok identities p' ->
  linkers_inv e identities w0 {| world := w'; procs := <[k := p']> (procs s) |}.
Proof.
  intros [Hsome Hkept Hprocs] Hu Hok.
  constructor; cbn [world procs]; rewrite ?Hu; try assumption.
  apply Forall_insert; assumption.
Qed.

Lemma linkers_step (k : nat) (s : System (option User)) :
  linkers_inv e identities w0 s ->
  linkers_inv e identities w0 (sys_step sch idp k s).
Proof.
  intros Hinv. pose proof Hinv as [Hsome Hkept Hprocs].
  unfold sys_step. destruct (procs s !! k) as [p|] eqn:Hp; [|exact Hinv].
  pose proof (Forall_lookup_1 _ _ _ _ Hprocs Hp) as Hok.
  destruct Hok as [i Hin|i Hin|i u Hin|p Hfin].
  - rewrite step_start.
    destruct (exec_query_as_statement sch (SelectByGoogleId (sub i)) (world s))
      as [(o & Ho & ->)|(o & ->)].
    { apply linkers_update; [assumption|reflexivity|].
      apply linker_finished. reflexivity. }
    cbn [exec_statement users set_outages].
    destruct (filter (has_google_id (sub i)) (users (world s))) as [|u r].
    + apply linkers_update; [assumption|reflexivity|].
      apply linker_by_email. exact Hin.
    + apply linkers_update; [assumption|reflexivity|].
      apply linker_finished. reflexivity.
  - rewrite step_by_email.
    assert (Hei : g_email i = e)
      by (exact (proj1 (Forall_forall _ _) same_email i Hin)).
    rewrite Hei.
    destruct (exec_query_as_statement sch (SelectByEmail (Some e)) (world s))
      as [(o & Ho & ->)|(o & ->)].
    { apply linkers_update; [assumption|reflexivity|].
      apply linker_finished. reflexivity. }
    cbn [exec_statement users set_outages].
    destruct (filter (has_email e) (users (world s))) as [|u r] eqn:He.
    { exfalso. exact (filter_nil_not_Exists (has_email e) _ He Hsome). }
    apply linkers_update; [assumption|reflexivity|].
    apply linker_link. exact Hin.
  - rewrite step_link.
    destruct (exec_query_as_statement sch (UpdateGoogleId (sub i) (user_id u))
                (world s)) as [(o & Ho & ->)|(o & ->)].
    { apply linkers_update; [assumption|reflexivity|].
      apply linker_finished. reflexivity. }
    cbn [exec_statement users set_outages].
    destruct (_ && _).
    { apply linkers_update; [assumption|reflexivity|].
      apply linker_finished. reflexivity. }
    constructor; cbn [world procs users set_users].
    + apply Exists_email_link. exact Hsome.
    + rewrite forget_link_link. exact Hkept.
    + apply Forall_insert; [assumption|]. apply linker_finished. reflexivity.
  - rewrite step_finished by assumption.
    rewrite list_insert_id by assumption.
    destruct s; exact Hinv.
Qed.

Lemma linkers_schedule (sched : list nat) (s : System (option User)) :
  linkers_inv e identities w0 s ->
  linkers_inv e identities w0 (run_schedule sch idp sched s).
Proof.
  revert s. induction sched as [|k sched IH]; intros s Hinv; [exact Hinv|].
  cbn [run_schedule fold_left]. apply IH, linkers_step, Hinv.
Qed.

(** X12: concurrent sign-ins for a registered email create nothing.  When
    an account with the email exists, however the resolvers of identities
    with that email are interleaved at their queries, whatever the
    constraints of the schema and the outages, every account keeps its id,
    name, email and password hash and no account is added: the resolvers
    can only link. *)
Theorem concurrent_linking_creates_nothing (sched : list nat) :
  Exists (has_email e) (users w0) ->
  forget_link <$> users (world (run_schedule sch idp sched
                                  (resolver_system w0 identities)))
  = forget_link <$> users w0.
Proof.
  intros Hsome.
  apply (li_kept e identities w0), linkers_schedule.
  constructor; cbn [resolver_system world procs].
  - exact Hsome.
  - reflexivity.
  - apply Forall_fmap, Forall_forall. intros i Hi. cbn.
    apply linker_start. exact Hi.
Qed.

End ConcurrentLinking.

(** ** The signup route *)

Section SignupRoute.
Variable hmac : string -> Payload -> string.
Variable bcrypt_check : string -> string -> bool.
Variable hash_fn : string -> string.
Variable env : Env.
Variable sch : Schema.
Variable idp : option string -> string -> Exn + option GooglePayload.

Lemma exec_insert_user_as_statement (n e : option string) (h : string) (w : World) :
  (exists o, outages w = true :: o
             /\ exec_insert_user sch n e h w
                = (inl (DatabaseError "connection refused"), set_outages o w))
  \/ (exists o, exec_insert_user sch n e h w
                = insert_user_statement sch n e h (set_outages o w)).
Proof.
  unfold exec_insert_user. destruct (outages w) as [|[|] o] eqn:Ho.
  - right. exists []. rewrite <- Ho, set_outages_same. reflexivity.
  - left. exists o. split; reflexivity.
  - right. exists o. reflexivity.
Qed.

Lemma run_signup_inserted_row (u : User) (w : World) :
  run sch idp (signup_inserted hmac env (inr [u])) w
  = (inr (registered hmac env u (now w)), w).
Proof.
  unfold signup_inserted. rewrite run_try_catch, run_mbind.
  cbn [await run head].
  rewrite run_mbind, run_createAccessToken, run_mbind, run_createRefreshToken.
  reflexivity.
Qed.

Lemma run_signup_inserted_rejected (ex : Exn) (w : World) :
  run sch idp (signup_inserted hmac env (inl ex)) w
  = (inr (json 500 "Server error"), w).
Proof. reflexivity. Qed.

(** The answers of the signup route and what it leaves, for every body
    and world. *)
Lemma signup_shape (b : SignupBody) (w : World) :
  exists r w',
    run_pending sch idp (signup hmac hash_fn env (Some b)) w = (inr r, w')
    /\ now w' = now w
    /\ ((users w' = users w /\ next_id w <= next_id w'
         /\ (r = json 400 "Passwords do not match"
             \/ r = json 400 "Email already registered"
             \/ r = json 500 "Server error"))
        \/ exists n e pw,
             sb_name b = Some n /\ sb_email b = Some e
             /\ sb_password b = Some pw /\ sb_confirm b = Some pw
             /\ filter (has_email e) (users w) = []
             /\ users w' = users w ++ [new_local_user (next_id w) n e (hash_fn pw)]
             /\ next_id w' = next_id w + 1
             /\ r = registered hmac env
                      (new_local_user (next_id w) n e (hash_fn pw)) (now w)).
Proof.
  unfold run_pending, signup.
  destruct (bool_decide_reflect (sb_password b = sb_confirm b)) as [Hpc|Hpc];
    cbn [negb].
  2:{ cbn [run]. eexists _, _. split; [reflexivity|]. split; [reflexivity|].
      left. split; [reflexivity|]. split; [lia|]. auto. }
  rewrite run_try_catch, run_mbind, run_query.
  destruct (exec_query_as_statement sch (SelectByEmail (sb_email b)) w)
    as [(o & Ho & ->)|(o & ->)].
  { cbn [run]. eexists _, _. split; [reflexivity|]. split; [reflexivity|].
    left. split; [reflexivity|]. split; [cbn; lia|]. auto. }
  assert (Hsel : exec_statement sch (SelectByEmail (sb_email b)) (set_outages o w)
                 = (inr (match sb_email b with
                         | Some e => filter (has_email e) (users w)
                         | None => []
                         end), set_outages o w))
    by (destruct (sb_email b); reflexivity).
  rewrite Hsel. clear Hsel.
  destruct (match sb_email b with Some e => _ | None => _ end) as [|x rows] eqn:Hrows.
  2:{ cbn [run]. eexists _, _. split; [reflexivity|]. split; [reflexivity|].
      left. split; [reflexivity|]. split; [cbn; lia|]. auto. }
  rewrite run_mbind.
  destruct (sb_password b) as [pw|] eqn:Hpw; cbn [bcrypt_hash await run].
  2:{ eexists _, _. split; [reflexivity|]. split; [reflexivity|].
      left. split; [reflexivity|]. split; [cbn; lia|]. auto. }
  destruct (exec_insert_user_as_statement (sb_name b) (sb_email b) (hash_fn pw)
              (set_outages o w)) as [(o2 & Ho2 & ->)|(o2 & ->)].
  { rewrite run_signup_inserted_rejected.
    eexists _, _. split; [reflexivity|]. split; [reflexivity|].
    left. split; [reflexivity|]. split; [cbn; lia|]. auto. }
  unfold insert_user_statement.
  destruct (sb_name b) as [n|] eqn:Hn; destruct (sb_email b) as [e|] eqn:He;
    try (rewrite run_signup_inserted_rejected;
         eexists _, _; split; [reflexivity|]; split; [reflexivity|];
         left; split; [reflexivity|]; split; [cbn; lia|]; auto).
  cbn [users set_outages next_id].
  rewrite (bool_decide_eq_false_2 (Exists (has_email e) (users w)))
    by exact (filter_nil_not_Exists (has_email e) _ Hrows).
  rewrite andb_false_r. rewrite run_signup_inserted_row.
  eexists _, _. split; [reflexivity|]. split; [reflexivity|].
  right. exists n, e, pw. repeat split; try reflexivity; try assumption.
  symmetry. exact Hpc.
Qed.

(** X13: signup with a password and a confirmation that differ is
    answered 400 "Passwords do not match" before anything else happens:
    no query is issued, even an unreachable repository goes unnoticed. *)
Theorem signup_password_mismatch (b : SignupBody) (w : World) :
  sb_password b <> sb_confirm b ->
  run_pending sch idp (signup hmac hash_fn env (Some b)) w
  = (inr (json 400 "Passwords do not match"), w).
Proof.
  intros Hne. unfold run_pending, signup.
  rewrite (bool_decide_eq_false_2 _ Hne). reflexivity.
Qed.

(** The signup route against a reachable repository, passwords equal. *)
Lemma run_signup (b : SignupBody) (w : World) :
  outages w = [] ->
  sb_password b = sb_confirm b ->
  run_pending sch idp (signup hmac hash_fn env (Some b)) w
  = match (match sb_email b with
           | Some e => filter (has_email e) (users w)
           | None => []
           end) with
    | _ :: _ => (inr (json 400 "Email already registered"), w)
    | [] =>
        match sb_password b with
        | None => (inr (json 500 "Server error"), w)
        | Some pw =>
            match sb_name b, sb_email b with
            | Some n, Some e =>
                let row := new_local_user (next_id w) n e (hash_fn pw) in
                (inr (registered hmac env row (now w)),
                 bump_id (set_users (users w ++ [row]) w))
            | _, _ => (inr (json 500 "Server error"), bump_id w)
            end
        end
    end.
Proof.
  intros Hup Hpc. unfold run_pending, signup.
  rewrite (bool_decide_eq_true_2 _ Hpc). cbn [negb].
  rewrite run_try_catch, run_mbind, run_query, exec_query_up by assumption.
  assert (Hsel : exec_statement sch (SelectByEmail (sb_email b)) w
                 = (inr (match sb_email b with
                         | Some e => filter (has_email e) (users w)
                         | None => []
                         end), w))
    by (destruct (sb_email b); reflexivity).
  rewrite Hsel. clear Hsel.
  destruct (match sb_email b with Some e => _ | None => _ end) as [|x rows] eqn:Hrows;
    [|reflexivity].
  rewrite run_mbind.
  destruct (sb_password b) as [pw|]; cbn [bcrypt_hash await run]; [|reflexivity].
  unfold exec_insert_user. rewrite Hup. unfold insert_user_statement.
  destruct (sb_name b) as [n|]; destruct (sb_email b) as [e|];
    try apply run_signup_inserted_rejected.
  rewrite (bool_decide_eq_false_2 (Exists (has_email e) (users w)))
    by exact (filter_nil_not_Exists (has_email e) _ Hrows).
  rewrite andb_false_r. cbv zeta. rewrite run_signup_inserted_row. reflexivity.
Qed.

(** X14: signup for an email that some account has is answered
    400 "Email already registered" and changes nothing, whether that
    account has a password or was created by Google sign-in: signup never
    attaches a password to an existing account. *)
Theorem signup_email_taken
  (e : string) (u : User) (rest : list User) (b : SignupBody) (w : World) :
  outages w = [] ->
  sb_password b = sb_confirm b ->
  sb_email b = Some e ->
  filter (has_email e) (users w) = u :: rest ->
  run_pending sch idp (signup hmac hash_fn env (Some b)) w
  = (inr (json 400 "Email already registered"), w).
Proof.
  intros Hup Hpc He Hrows. rewrite run_signup by assumption.
  rewrite He, Hrows. reflexivity.
Qed.

(** X15: signup with a name, an email no account has, and a password
    equal to its confirmation appends one account to a reachable
    repository, with the next id of the sequence, the name, the email,
    the hash of the password and no external identity, and answers 200
    with the cookies of a session for that account. *)
Theorem signup_registers (n e pw : string) (b : SignupBody) (w : World) :
  outages w = [] ->
  sb_name b = Some n -> sb_email b = Some e ->
  sb_password b = Some pw -> sb_confirm b = Some pw ->
  filter (has_email e) (users w) = [] ->
  let row := new_local_user (next_id w) n e (hash_fn pw) in
  run_pending sch idp (signup hmac hash_fn env (Some b)) w
  = (inr (registered hmac env row (now w)),
     bump_id (set_users (users w ++ [row]) w)).
Proof.
  intros Hup Hn He Hp Hc Hfresh row.
  rewrite run_signup by (assumption || congruence).
  rewrite He, Hfresh, Hp, Hn. reflexivity.
Qed.

(** X16: signup, then signin.  After a successful signup, when the
    password checks against the hash made of it, signin with the same
    email and password answers 200 for the account just created, and the
    access token it sets passes the guard with that account's id and the
    email and name given at signup. *)
Theorem signup_then_signin
  (n e pw : string) (b : SignupBody) (req : Request) (w : World) :
  outages w = [] ->
  sb_name b = Some n -> sb_email b = Some e ->
  sb_password b = Some pw -> sb_confirm b = Some pw ->
  filter (has_email e) (users w) = [] ->
  bcrypt_check pw (hash_fn pw) = true ->
  exists (r : Response) (w' : World) (p : Payload),
    run_pending sch idp (signup hmac hash_fn env (Some b)) w = (inr r, w')
    /\ status r = 200
    /\ run sch idp
         (signin hmac bcrypt_check env (signin_request (Some e) (Some pw) req)) w'
       = (inr (login_successful hmac env
                 (new_local_user (next_id w) n e (hash_fn pw)) (now w')), w')
    /\ run sch idp
         (verifyAccessToken hmac env
            (with_access_token
               (minted_access hmac env
                  (new_local_user (next_id w) n e (hash_fn pw)) (now w')) req)) w'
       = (inr (Next p), w')
    /\ claims_of p = {| c_id := next_id w; c_email := Some e; c_name := Some n |}.
Proof.
  intros Hup Hn He Hp Hc Hfresh Hcheck.
  set (row := new_local_user (next_id w) n e (hash_fn pw)).
  exists (registered hmac env row (now w)),
         (bump_id (set_users (users w ++ [row]) w)),
         (access_payload row (now w)).
  split.
  { rewrite run_signup by (assumption || congruence).
    rewrite He, Hfresh, Hp, Hn. reflexivity. }
  split; [reflexivity|]. split.
  - unfold row, signin_request. rewrite run_signin by exact Hup.
    cbn [email password users set_users bump_id].
    rewrite filter_app, Hfresh. rewrite filter_cons_True by reflexivity.
    cbn [app filter password_hash new_local_user bcrypt_compare].
    rewrite Hcheck. reflexivity.
  - split; [|reflexivity].
    unfold row, minted_access. rewrite run_verifyAccessToken.
    cbn [with_access_token cookies accessToken falsy].
    rewrite run_jwt_verify_signed. cbn [exp access_payload now bump_id set_users].
    replace (now w >=? (clock (now w) + 15 * 60) * 1000) with false; [reflexivity|].
    symmetry. rewrite Z.geb_leb. apply Z.leb_gt. unfold clock.
    pose proof (Z.div_mod (now w) 1000 ltac:(lia)).
    pose proof (Z.mod_pos_bound (now w) 1000 ltac:(lia)). lia.
Qed.

(** X17: a signup request that has neither password nor confirmation
    passes the comparison of the two, and is answered 500 "Server error"
    once the email has been found free; no account is created. *)
Theorem signup_without_password (b : SignupBody) (w : World) :
  outages w = [] ->
  sb_password b = None -> sb_confirm b = None ->
  match sb_email b with
  | Some e => filter (has_email e) (users w)
  | None => []
  end = [] ->
  run_pending sch idp (signup hmac hash_fn env (Some b)) w
  = (inr (json 500 "Server error"), w).
Proof.
  intros Hup Hp Hc Hfree. rewrite run_signup by (assumption || congruence).
  rewrite Hfree, Hp. reflexivity.
Qed.

(** X18: signup never removes or changes an account and never takes the
    id sequence back, and throws only at its first line.  For a request
    that carries a body the accounts of before are still there, unchanged
    and in order, followed by at most one new account, and 200 is answered
    only when the account of the request was appended; a request without
    body makes the handler throw before its [try] and before any query,
    leaving the world as it was. *)
Theorem signup_keeps_accounts (req_body : option SignupBody) (w : World) :
  match run_pending sch idp (signup hmac hash_fn env req_body) w with
  | (inr r, w') =>
      is_Some req_body
      /\ repository_grew w w'
      /\ (status r = 200 -> length (users w') = S (length (users w)))
  | (inl ex, w') =>
      req_body = None /\ ex = destructure_undefined "name" /\ w' = w
  end.
Proof.
  destruct req_body as [b|]; [|cbn; auto].
  destruct (signup_shape b w)
    as (r & w' & -> & _ & [(Hu & Hn & Hr)|(n & e & pw & _ & _ & _ & _ & _ & Hu & Hn & Hr)]).
  - split; [eexists; reflexivity|]. split.
    + unfold repository_grew. rewrite Hu. split; [reflexivity|]. split; [lia|exact Hn].
    + intros H200. exfalso.
      destruct Hr as [-> | [-> | ->]]; discriminate H200.
  - split; [eexists; reflexivity|]. split.
    + unfold repository_grew. rewrite Hu, length_app. split.
      * apply prefix_app_r. reflexivity.
      * split; [cbn; lia|lia].
    + intros _. rewrite Hu, length_app. cbn. lia.
Qed.




End SignupRoute.

(** ** Logout and the routes behind the guard *)

Section ProtectedRoutes.
Variable hmac : string -> Payload -> string.
Variable env : Env.
Variable sch : Schema.
Variable idp : option string -> string -> Exn + option GooglePayload.

Lemma run_guarded {B : Type} (handler : Payload -> Prog (Answer B))
  (req : Request) (w : World) :
  run sch idp (guarded hmac env handler req) w
  = match run sch idp (verifyAccessToken hmac env req) w with
    | (inr (Next p), w') => run sch idp (handler p) w'
    | (inr (Responded r), w') => (inr (Plain r), w')
    | (inl ex, w') => (inl ex, w')
    end.
Proof.
  unfold guarded. rewrite run_mbind.
  destruct (run sch idp (verifyAccessToken hmac env req) w) as [[ex|[p|r]] w'];
    reflexivity.
Qed.

Lemma run_guard_minted (u : User) (req : Request) (w0 w1 : World) :
  now w1 < (clock (now w0) + 15 * 60) * 1000 ->
  run sch idp
    (verifyAccessToken hmac env
       (with_access_token (minted_access hmac env u (now w0)) req)) w1
  = (inr (Next (access_payload u (now w0))), w1).
Proof.
  intros Hlt. unfold minted_access. rewrite run_verifyAccessToken.
  cbn [with_access_token cookies accessToken falsy].
  rewrite run_jwt_verify_signed. cbn [exp access_payload].
  replace (now w1 >=? (clock (now w0) + 15 * 60) * 1000) with false
    by (symmetry; rewrite Z.geb_leb; apply Z.leb_gt; exact Hlt).
  reflexivity.
Qed.

(** The guard never throws and leaves the world as it was. *)
Lemma guard_keeps_world (req : Request) (w : World) :
  match run sch idp (verifyAccessToken hmac env req) w with
  | (inr _, w') => w' = w
  | (inl _, _) => False
  end.
Proof.
  rewrite run_verifyAccessToken.
  destruct (falsy (accessToken (cookies req))); [reflexivity|].
  pose proof (jwt_verify_keeps_world hmac sch idp (accessToken (cookies req))
                (JWT_SECRET env) w) as Hw.
  destruct (run sch idp (jwt_verify hmac _ _) w) as [[e|p] w']; exact Hw.
Qed.

(** X20: the dashboard answers from the token alone.  For an access token
    minted for an account and not yet expired it greets with the email the
    account had when the token was minted and returns the payload of the
    token, whatever the repository holds by then, reachable or not, and
    without a query. *)
Theorem dashboard_answers_from_token
  (u : User) (req : Request) (w0 w1 : World) :
  now w1 < (clock (now w0) + 15 * 60) * 1000 ->
  run sch idp
    (dashboard hmac env
       (with_access_token (minted_access hmac env u (now w0)) req)) w1
  = (inr (Json 200
            {| welcome_message := String.append "Welcome " (user_email u);
               welcome_user := access_payload u (now w0) |}), w1).
Proof.
  intros Hlt. unfold dashboard.
  rewrite run_guarded, run_guard_minted by assumption. reflexivity.
Qed.

(** X21: the [/verify] route answers from the repository.  For an access
    token minted for an account and not yet expired, with the repository
    reachable, it answers 200 with the id, name and email the first row of
    that id has now; when no row has that id any more it still answers
    200, with no user. *)
Theorem verify_reads_current_account
  (u : User) (req : Request) (w0 w1 : World) :
  outages w1 = [] ->
  now w1 < (clock (now w0) + 15 * 60) * 1000 ->
  run sch idp
    (verify hmac env
       (with_access_token (minted_access hmac env u (now w0)) req)) w1
  = (inr (Json 200 (summary <$> head (filter (has_id (user_id u)) (users w1)))),
     w1).
Proof.
  intros Hup Hlt. unfold verify.
  rewrite run_guarded, run_guard_minted by assumption.
  rewrite run_try_catch, run_mbind, run_query, exec_query_up by assumption.
  reflexivity.
Qed.

(** X22: a request the guard turns away gets the guard's answer from both
    protected routes, and neither handler runs: no query is issued and the
    world is left as it was. *)
Theorem protected_routes_turn_away (req : Request) (w : World) :
  match run sch idp (verifyAccessToken hmac env req) w with
  | (inr (Responded r), _) =>
      run sch idp (dashboard hmac env req) w = (inr (Plain r), w)
      /\ run sch idp (verify hmac env req) w = (inr (Plain r), w)
  | _ => True
  end.
Proof.
  unfold dashboard, verify. rewrite !run_guarded.
  pose proof (guard_keeps_world req w) as Hw.
  destruct (run sch idp (verifyAccessToken hmac env req) w) as [[ex|[p|r]] w'];
    try exact I.
  subst w'. split; reflexivity.
Qed.

End ProtectedRoutes.

(** ** Cookies *)

Section Cookies.
Variable hmac : string -> Payload -> string.
Variable bcrypt_check : string -> string -> bool.
Variable hash_fn : string -> string.
Variable env : Env.
Variable sch : Schema.
Variable idp : option string -> string -> Exn + option GooglePayload.

Lemma access_cookie_matches (u : User) (t : Z) :
  cookie_matches_token env (access_cookie env (minted_access hmac env u t)).
Proof.
  split; [reflexivity|]. split; [reflexivity|].
  eexists _, _. split; reflexivity.
Qed.

Lemma refresh_cookie_matches (u : User) (t : Z) :
  cookie_matches_token env (refresh_cookie env (minted_refresh hmac env u t)).
Proof.
  split; [reflexivity|]. split; [reflexivity|].
  eexists _, _. split; reflexivity.
Qed.

(** The cookies of the refresh route, for every request and world. *)
Lemma refresh_token_cookies (req : Request) (w : World) :
  exists r w',
    run sch idp (refresh_token hmac env req) w = (inr r, w')
    /\ (set_cookies r = []
        \/ exists u t, set_cookies r = [access_cookie env (minted_access hmac env u t)]).
Proof.
  unfold refresh_token.
  destruct (falsy (refreshToken (cookies req))).
  { eexists _, _. split; [reflexivity|]. left. reflexivity. }
  rewrite run_try_catch, run_mbind.
  destruct (run sch idp (jwt_verify hmac _ _) w) as [[e|p] w1].
  { eexists _, _. split; [reflexivity|]. left. reflexivity. }
  rewrite run_mbind, run_query.
  destruct (exec_query sch (SelectById (p_id p)) w1) as [[e|rows] w2].
  { eexists _, _. split; [reflexivity|]. left. reflexivity. }
  destruct rows as [|u rows]; cbn [head].
  - eexists _, _. split; [reflexivity|]. left. reflexivity.
  - rewrite run_mbind, run_createAccessToken. cbn [run].
    eexists _, _. split; [reflexivity|]. right. eexists _, _. reflexivity.
Qed.

(** X23: every cookie any route sets is closed to scripts, is restricted
    to TLS exactly in production, carries a signed token, and is kept by
    the browser exactly as long as that token lives: its [maxAge] is the
    span between the token's [iat] and [exp].  This holds for signin,
    Google sign-in, refresh and signup, whatever the request and the
    world. *)
Theorem cookies_match_tokens
  (req : Request) (req_body : option SignupBody) (w : World) :
  match run sch idp (signin hmac bcrypt_check env req) w with
  | (inr r, _) => Forall (cookie_matches_token env) (set_cookies r)
  | _ => True
  end
  /\ match run sch idp (google_auth hmac env req) w with
     | (inr r, _) => Forall (cookie_matches_token env) (set_cookies r)
     | _ => True
     end
  /\ match run sch idp (refresh_token hmac env req) w with
     | (inr r, _) => Forall (cookie_matches_token env) (set_cookies r)
     | _ => True
     end
  /\ match run_pending sch idp (signup hmac hash_fn env req_body) w with
     | (inr r, _) => Forall (cookie_matches_token env) (set_cookies r)
     | _ => True
     end.
Proof.
  repeat split.
  - destruct req as [c [b|]]; [|exact I].
    destruct (signin_shape hmac bcrypt_check env sch idp c b w)
      as (r & w' & -> & _ & _ & [-> | [-> | (u & _ & ->)]]);
      try constructor.
    + apply access_cookie_matches.
    + constructor; [apply refresh_cookie_matches|constructor].
  - destruct req as [c [b|]]; [|exact I].
    rewrite run_google_auth.
    destruct (idp (token b) (GOOGLE_CLIENT_ID env)) as [e|[payload|]];
      try constructor.
    destruct (run sch idp (resolve_external payload) w) as [[e|[u|]] w'];
      try constructor.
    + apply access_cookie_matches.
    + constructor; [apply refresh_cookie_matches|constructor].
  - destruct (refresh_token_cookies req w) as (r & w' & -> & [->|(u & t & ->)]);
      constructor; [apply access_cookie_matches|constructor].
  - destruct req_body as [b|]; [|exact I].
    destruct (signup_shape hmac hash_fn env sch idp b w)
      as (r & w' & -> & _ & [(_ & _ & [-> | [-> | ->]])
                            |(n & e & pw & _ & _ & _ & _ & _ & _ & _ & ->)]);
      try constructor.
    + apply access_cookie_matches.
    + constructor; [apply refresh_cookie_matches|constructor].
Qed.

(** X24: logout revokes nothing.  Whatever the request, it answers 200,
    clears the two cookies with the flags they were set with, and leaves
    the world as it was: a request made after it with the tokens of the
    session is answered by the guard and by the refresh route exactly as
    before. *)
Theorem logout_revokes_nothing
  (req req' : Request) (t t' : JwtString) (w : World) :
  exists r : LogoutResponse,
    run sch idp (logout env req) w = (inr r, w)
    /\ logout_status r = 200
    /\ Forall2 clears (cleared r) [access_cookie env t; refresh_cookie env t']
    /\ run sch idp (verifyAccessToken hmac env req')
         (run sch idp (logout env req) w).2
       = run sch idp (verifyAccessToken hmac env req') w
    /\ run sch idp (refresh_token hmac env req')
         (run sch idp (logout env req) w).2
       = run sch idp (refresh_token hmac env req') w.
Proof.
  eexists. split; [reflexivity|]. split; [reflexivity|].
  split; [|split; reflexivity].
  repeat constructor.
Qed.

End Cookies.

(** ** Sessions opened by Google sign-in; what the protected routes leave *)

Section More.
Variable hmac : string -> Payload -> string.
Variable env : Env.
Variable sch : Schema.
Variable idp : option string -> string -> Exn + option GooglePayload.


(** X26: the routes behind the guard never throw and never write: the
    dashboard leaves the world as it was, and [/verify] leaves every
    account and the id sequence as they were, whatever the request and
    the world. *)
Theorem protected_routes_read_only (req : Request) (w : World) :
  match run sch idp (dashboard hmac env req) w with
  | (inr _, w') => w' = w
  | (inl _, _) => False
  end
  /\ match run sch idp (verify hmac env req) w with
     | (inr _, w') => same_repository w w'
     | (inl _, _) => False
     end.
Proof.
  unfold dashboard, verify. rewrite !run_guarded.
  pose proof (guard_keeps_world hmac env sch idp req w) as Hg.
  destruct (run sch idp (verifyAccessToken hmac env req) w) as [[ex|[p|r]] w'];
    [contradiction| |].
  - subst w'. split; [reflexivity|].
    rewrite run_try_catch, run_mbind, run_query.
    pose proof (exec_query_select sch (SelectById (p_id p)) w eq_refl) as Hs.
    destruct (exec_query sch (SelectById (p_id p)) w) as [[e|rows] w2];
      exact Hs.
  - subst w'. split; [reflexivity|split; reflexivity].
Qed.

End More.

(** ** An unreachable repository *)

Section Outage.
Variable hmac : string -> Payload -> string.
Variable bcrypt_check : string -> string -> bool.
Variable hash_fn : string -> string.
Variable env : Env.
Variable sch : Schema.
Variable idp : option string -> string -> Exn + option GooglePayload.

(** X27: how the routes answer when their first query meets an
    unreachable repository.  Signin (body present), signup (passwords equal) and
    [/verify] (token valid) answer 500 "Server error"; the refresh route
    answers a valid refresh token with 401 "Invalid or expired refresh
    token", the answer it gives to a token that does not verify.  Nothing
    is written. *)
Theorem unreachable_repository_answers
  (u : User) (req : Request) (bd : Body) (b : SignupBody) (w0 w : World)
  (o : list bool) :
  body req = Some bd ->
  outages w = true :: o ->
  now w < (clock (now w0) + 15 * 60) * 1000 ->
  sb_password b = sb_confirm b ->
  run sch idp (signin hmac bcrypt_check env req) w
  = (inr (json 500 "Server error"), set_outages o w)
  /\ run_pending sch idp (signup hmac hash_fn env (Some b)) w
     = (inr (json 500 "Server error"), set_outages o w)
  /\ run sch idp
       (verify hmac env
          (with_access_token (minted_access hmac env u (now w0)) req)) w
     = (inr (Plain (json 500 "Server error")), set_outages o w)
  /\ run sch idp
       (refresh_token hmac env
          (with_refresh_token (minted_refresh hmac env u (now w0)) req)) w
     = (inr (json 401 "Invalid or expired refresh token"), set_outages o w).
Proof.
  intros Hbody Ho Hlt Hpc. repeat split.
  - unfold signin. rewrite Hbody. rewrite run_try_catch, run_mbind, run_query.
    unfold exec_query. rewrite Ho. reflexivity.
  - unfold run_pending, signup. rewrite (bool_decide_eq_true_2 _ Hpc).
    cbn [negb]. rewrite run_try_catch, run_mbind, run_query.
    unfold exec_query. rewrite Ho. reflexivity.
  - unfold verify. rewrite run_guarded, run_guard_minted by assumption.
    rewrite run_try_catch, run_mbind, run_query. unfold exec_query. rewrite Ho.
    reflexivity.
  - unfold minted_refresh, refresh_token.
    cbn [with_refresh_token cookies refreshToken falsy].
    rewrite run_try_catch, run_mbind, run_jwt_verify_signed.
    cbn [exp refresh_payload].
    replace (now w >=? (clock (now w0) + 7 * 24 * 60 * 60) * 1000) with false
      by (symmetry; rewrite Z.geb_leb; apply Z.leb_gt; lia).
    rewrite run_mbind, run_query. unfold exec_query. rewrite Ho. reflexivity.
Qed.

End Outage.

(** ** The further properties at sample data *)


Lemma guard_acceptance_is_downward_closed_witness :
  (run sample_schema sample_idp
     (verifyAccessToken sample_hmac sample_env
        (with_access_token alice_token sample_request)) sample_world).1
  = inr (Next (access_payload alice (now sample_world))).
Proof.
  apply (guard_acceptance_is_downward_closed sample_hmac sample_env sample_schema
           sample_idp (with_access_token alice_token sample_request)
           sample_world (later 60000 sample_world)).
  - cbn. lia.
  - reflexivity.
Defined.

Lemma refresh_token_lifetime_witness :
  run sample_schema sample_idp
    (refresh_token sample_hmac sample_env
       (with_refresh_token alice_refresh_token sample_request))
    (later 604800000 sample_world)
  = (inr (json 401 "Invalid or expired refresh token"),
     later 604800000 sample_world).
Proof.
  exact (refresh_token_lifetime sample_hmac sample_env sample_schema sample_idp
           alice alice [] sample_request sample_world
           (later 604800000 sample_world) eq_refl eq_refl).
Defined.


Lemma signin_without_password_witness :
  run sample_schema sample_idp
    (signin sample_hmac sample_bcrypt sample_env
       (signin_request (Some "a@x.com") None sample_request)) sample_world
  = (inr (json 500 "Server error"), sample_world)
  /\ run sample_schema sample_idp
       (signin sample_hmac sample_bcrypt sample_env
          (signin_request (Some "nobody@x.com") None sample_request)) sample_world
     = (inr (json 400 "Invalid email or password"), sample_world).
Proof.
  apply (signin_without_password sample_hmac sample_bcrypt sample_env sample_schema
           sample_idp "a@x.com" "nobody@x.com" alice [] sample_request
           sample_world); reflexivity.
Defined.


Lemma resolve_new_identity_twice_witness :
  exists (a : User) (w1 : World),
    run sample_schema sample_idp (resolve_external newcomer_identity) sample_world
    = (inr (Some a), w1)
    /\ run sample_schema sample_idp (resolve_external newcomer_identity) w1
       = (inr (Some a), w1)
    /\ a = new_google_user 3 "Nora" "n@x.com" "google-3"
    /\ users w1 = [alice; gina; a].
Proof.
  apply (resolve_new_identity_twice sample_schema sample_idp newcomer_identity
           sample_world); reflexivity.
Defined.

Lemma concurrent_linking_creates_nothing_witness :
  forget_link
    <$> users (world (run_schedule bare_schema sample_idp lockstep
                        (resolver_system sample_world
                           [alice_identity; alice_identity])))
  = forget_link <$> users sample_world.
Proof.
  apply (concurrent_linking_creates_nothing bare_schema sample_idp "a@x.com"
           [alice_identity; alice_identity] sample_world).
  - repeat constructor.
  - apply (bool_decide_unpack _). vm_compute. exact I.
Defined.

Lemma signup_password_mismatch_witness :
  run_pending sample_schema sample_idp
    (signup sample_hmac sample_hash sample_env (Some typo_signup))
    (set_outages [true] sample_world)
  = (inr (json 400 "Passwords do not match"), set_outages [true] sample_world).
Proof.
  apply (signup_password_mismatch sample_hmac sample_hash sample_env sample_schema
           sample_idp typo_signup (set_outages [true] sample_world)).
  discriminate.
Defined.

Lemma signup_email_taken_witness :
  run_pending sample_schema sample_idp
    (signup sample_hmac sample_hash sample_env (Some alice_again)) sample_world
  = (inr (json 400 "Email already registered"), sample_world).
Proof.
  apply (signup_email_taken sample_hmac sample_hash sample_env sample_schema
           sample_idp "a@x.com" alice [] alice_again sample_world); reflexivity.
Defined.

Lemma signup_registers_witness :
  run_pending sample_schema sample_idp
    (signup sample_hmac sample_hash sample_env (Some bea_signup)) sample_world
  = (inr (registered sample_hmac sample_env
            (new_local_user 3 "Bea" "b@x.com" "hash:pw2") (now sample_world)),
     bump_id (set_users [alice; gina; new_local_user 3 "Bea" "b@x.com" "hash:pw2"]
                sample_world)).
Proof.
  apply (signup_registers sample_hmac sample_hash sample_env sample_schema
           sample_idp "Bea" "b@x.com" "pw2" bea_signup sample_world); reflexivity.
Defined.

Lemma signup_then_signin_witness :
  exists (r : Response) (w' : World) (p : Payload),
    run_pending sample_schema sample_idp
      (signup sample_hmac sample_hash sample_env (Some bea_signup)) sample_world
    = (inr r, w')
    /\ status r = 200
    /\ run sample_schema sample_idp
         (signin sample_hmac sample_bcrypt sample_env
            (signin_request (Some "b@x.com") (Some "pw2") sample_request)) w'
       = (inr (login_successful sample_hmac sample_env
                 (new_local_user (next_id sample_world) "Bea" "b@x.com"
                    (sample_hash "pw2")) (now w')), w')
    /\ run sample_schema sample_idp
         (verifyAccessToken sample_hmac sample_env
            (with_access_token
               (minted_access sample_hmac sample_env
                  (new_local_user (next_id sample_world) "Bea" "b@x.com"
                     (sample_hash "pw2")) (now w')) sample_request)) w'
       = (inr (Next p), w')
    /\ claims_of p = {| c_id := next_id sample_world; c_email := Some "b@x.com";
                        c_name := Some "Bea" |}.
Proof.
  apply (signup_then_signin sample_hmac sample_bcrypt sample_hash sample_env
           sample_schema sample_idp "Bea" "b@x.com" "pw2" bea_signup
           sample_request sample_world); reflexivity.
Defined.

Lemma signup_without_password_witness :
  run_pending sample_schema sample_idp
    (signup sample_hmac sample_hash sample_env (Some empty_signup)) sample_world
  = (inr (json 500 "Server error"), sample_world).
Proof.
  apply (signup_without_password sample_hmac sample_hash sample_env sample_schema
           sample_idp empty_signup sample_world); reflexivity.
Defined.


Lemma dashboard_answers_from_token_witness :
  run sample_schema sample_idp
    (dashboard sample_hmac sample_env
       (with_access_token alice_token sample_request)) renamed_world
  = (inr (Json 200
            {| welcome_message := "Welcome a@x.com";
               welcome_user := access_payload alice (now sample_world) |}),
     renamed_world).
Proof.
  apply (dashboard_answers_from_token sample_hmac sample_env sample_schema sample_idp
           alice sample_request sample_world renamed_world).
  reflexivity.
Defined.

Lemma verify_reads_current_account_witness :
  run sample_schema sample_idp
    (verify sample_hmac sample_env
       (with_access_token alice_token sample_request)) renamed_world
  = (inr (Json 200 (Some {| s_id := 1; s_name := "Alice Cooper";
                            s_email := "a@x.com" |})), renamed_world).
Proof.
  apply (verify_reads_current_account sample_hmac sample_env sample_schema sample_idp
           alice sample_request sample_world renamed_world); reflexivity.
Defined.


Lemma unreachable_repository_answers_witness :
  run sample_schema sample_idp
    (signin sample_hmac sample_bcrypt sample_env
       (signin_request (Some "a@x.com") (Some "pw1") sample_request))
    (set_outages [true] sample_world)
  = (inr (json 500 "Server error"), set_outages [] (set_outages [true] sample_world))
  /\ run_pending sample_schema sample_idp
       (signup sample_hmac sample_hash sample_env (Some bea_signup))
       (set_outages [true] sample_world)
     = (inr (json 500 "Server error"),
        set_outages [] (set_outages [true] sample_world))
  /\ run sample_schema sample_idp
       (verify sample_hmac sample_env
          (with_access_token alice_token
             (signin_request (Some "a@x.com") (Some "pw1") sample_request)))
       (set_outages [true] sample_world)
     = (inr (Plain (json 500 "Server error")),
        set_outages [] (set_outages [true] sample_world))
  /\ run sample_schema sample_idp
       (refresh_token sample_hmac sample_env
          (with_refresh_token alice_refresh_token
             (signin_request (Some "a@x.com") (Some "pw1") sample_request)))
       (set_outages [true] sample_world)
     = (inr (json 401 "Invalid or expired refresh token"),
        set_outages [] (set_outages [true] sample_world)).
Proof.
  apply (unreachable_repository_answers sample_hmac sample_bcrypt sample_hash
           sample_env sample_schema sample_idp alice
           (signin_request (Some "a@x.com") (Some "pw1") sample_request)
           {| token := None; email := Some "a@x.com"; password := Some "pw1" |}
           bea_signup sample_world (set_outages [true] sample_world) []);
    reflexivity.
Defined.
